(** * nameko-amqp-retry: the backoff schedule and the backoff publisher

    A shallow embedding of [nameko_amqp_retry/backoff.py] and the
    properties its specification states about it.

    Conventions of the embedding.
    - Python [int] is [Z]; a finite Python [float] is the rational it
      stands for, and every float operation rounds its exact result to
      the nearest IEEE 754 binary64 value, ties to even (Python 3
      semantics: [/] is true division, [round] rounds half to even and
      returns an [int], [int] truncates).
    - Python [dict] objects that are shared between several names live
      in a store indexed by locations, so that aliasing is visible.
    - An exception is a value of [exn]; a call that may raise returns a
      [result].
    - [random.gauss] is an oracle passed to [next]: a statement that
      holds for every oracle holds for every sample. *)

From Stdlib Require Import QArith Qround Qabs Qpower Lqa.
From stdpp Require Import gmap strings list pretty.

Open Scope Z_scope.

(** ** Python primitives used by the module *)

Module Py.

(** Truth value of an [int]. *)
Definition truthy (z : Z) : bool := negb (z =? 0).

(** [seq[i]] on a tuple: negative indices count from the end, an index
    out of range is an [IndexError] (here [None]). *)
Definition index {A} (l : list A) (i : Z) : option A :=
  if 0 <=? i then l !! Z.to_nat i
  else if 0 <=? Z.of_nat (length l) + i
       then l !! Z.to_nat (Z.of_nat (length l) + i)
       else None.

(** [range(n)]. *)
Definition range (n : Z) : list Z := Z.of_nat <$> seq 0 (Z.to_nat n).

(** [int(x)] on a float: truncation towards zero. *)
Definition int_of_float (q : Q) : Z :=
  if Qle_bool 0 q then Qfloor q else Qceiling q.

(** [round(x)] on a float: nearest integer, ties to the even one. *)
Definition round (q : Q) : Z :=
  let f := Qfloor q in
  match (q - inject_Z f ?= 1 # 2)%Q with
  | Lt => f
  | Gt => f + 1
  | Eq => if Z.even f then f else f + 1
  end.

(** ["{}".format(n)] on an [int]. *)
Definition format_int (n : Z) : string := pretty n.

(** ["{:.0f}".format(x)] on a float: no decimals, ties to even, the
    sign of [x] kept. *)
Definition format_f0 (q : Q) : string :=
  (if Qle_bool 0 q then "" else "-") +:+ pretty (Z.abs (round q)).

(** [needle in hay] on strings. *)
Fixpoint contains (needle hay : string) : bool :=
  String.prefix needle hay ||
  match hay with
  | EmptyString => false
  | String _ rest => contains needle rest
  end.

End Py.

(** ** Values, dicts and the store *)

Definition loc := positive.

(** One record of the [x-death] header: the fields [next] reads. *)
Record death := Death { exchange : string; count : Z }.

Inductive value :=
| VNone
| VInt (z : Z)
| VStr (s : string)
| VDeath (records : list death)
| VRef (r : loc).

Abbreviation dict := (gmap string value).
Abbreviation store := (gmap loc dict).

(** The dict a location holds. *)
Definition deref (h : store) (r : loc) : dict := h !!! r.

(** A consumed message: [headers] is a dict object, [properties] a dict
    whose entry [application_headers] refers to a dict object. *)
Record Message := {
  body : list Byte.byte;
  headers : loc;
  properties : dict
}.

(** ** The Backoff exception class *)

(** Class attributes, overridden by subclasses. *)
Record BackoffClass := {
  schedule : list Z;
  limit : Z;
  random_sigma : Z;
  random_groups_per_sigma : Z
}.

(** An instance: its class and the two attributes [__init__] creates. *)
Record Backoff := {
  cls : BackoffClass;
  _total_attempts : option Z;
  _next_expiration : option Z
}.

Definition returned_message := string.

Inductive exn :=
| Expired (message : string) (cause : Backoff)
| UndeliverableMessage (returned : option returned_message)
| ChannelError (text : string)
| KeyError (key : string)
| IndexError
| ZeroDivisionError
| TypeError
| OtherError (text : string).

Inductive result (A : Type) :=
| Ok (a : A)
| Raise (e : exn).
Arguments Ok {A} a.
Arguments Raise {A} e.

#[global] Instance result_ret : MRet result := fun A a => Ok a.
#[global] Instance result_bind : MBind result := fun A B f r =>
  match r with
  | Ok a => f a
  | Raise e => Raise e
  end.

Definition is_expired {A} (r : result A) : bool :=
  match r with
  | Raise (Expired _ _) => true
  | _ => false
  end.

(** ** Python floats: IEEE 754 binary64 *)

Module Double.

(** A finite double is the rational it stands for; the one other value
    that arises in this module is an infinity, which no arithmetic
    consumes: [round] and [int] reject it. *)
Inductive double :=
| Finite (q : Q)
| Infinity.

(** floor (log2 |x|), for x in lowest terms and not 0. *)
Definition ilog2 (x : Q) : Z :=
  let k := Z.log2 (Z.abs (Qnum x)) - Z.log2 (Zpos (Qden x)) in
  if Qle_bool (2 ^ k) (Qabs x) then k else k - 1.

(** The exponent of the unit in the last place: 53 bits of precision,
    subnormal numbers from 2^-1074. *)
Definition ulp_exponent (x : Q) : Z := Z.max (ilog2 x - 52) (-1074).

(** Rounding to nearest, ties to even, with exponents unbounded above. *)
Definition nearest (x : Q) : Q :=
  let x := Qred x in
  if Qeq_bool x 0 then 0
  else
    let u := (2 ^ ulp_exponent x)%Q in
    Qred (inject_Z (Py.round (x / u)) * u).

(** The double of a real: infinite from 2^1024 on. *)
Definition of_real (x : Q) : double :=
  let y := nearest x in
  if Qle_bool (inject_Z (2 ^ 1024)) (Qabs y) then Infinity else Finite y.

End Double.

Definition OverflowError : exn := OtherError "OverflowError".

(** [float(n)] on an [int]. *)
Definition float_of_int (n : Z) : result Q :=
  match Double.of_real (inject_Z n) with
  | Double.Finite x => Ok x
  | Double.Infinity => Raise OverflowError
  end.

(** [a / b] on two [int]s. *)
Definition int_truediv (a b : Z) : result Q :=
  if b =? 0 then Raise ZeroDivisionError
  else
    match Double.of_real (inject_Z a / inject_Z b) with
    | Double.Finite x => Ok x
    | Double.Infinity => Raise OverflowError
    end.

(** [x / y] on two floats. *)
Definition float_truediv (x y : Q) : result Double.double :=
  if Qeq_bool y 0 then Raise ZeroDivisionError
  else Ok (Double.of_real (x / y)).

(** [x * y] on two floats. *)
Definition float_mul (x y : Q) : Double.double := Double.of_real (x * y).

(** [round(x)] on a float. *)
Definition float_round (x : Double.double) : result Z :=
  match x with
  | Double.Finite q => Ok (Py.round q)
  | Double.Infinity => Raise OverflowError
  end.

(** [int(x)] on a float. *)
Definition float_int (x : Double.double) : result Z :=
  match x with
  | Double.Finite q => Ok (Py.int_of_float q)
  | Double.Infinity => Raise OverflowError
  end.

Definition EXPIRY_GRACE_PERIOD : Z := 50000.

Definition get_backoff_queue_name (expiration : Z) : string :=
  "backoff--" +:+ Py.format_int expiration +:+ "ms".

(** [int(interval * round(float(value) / interval))]; in the product the
    [int] that [round] returned is converted to a float. *)
Definition round_to_nearest (value : Z) (interval : Q) : result Z :=
  v ← float_of_int value;
  q ← float_truediv v interval;
  k ← float_round q;
  k ← float_of_int k;
  float_int (float_mul interval k).

(** The attributes of the class [Backoff] itself. *)
Definition Backoff_class : BackoffClass := {|
  schedule := [10000; 20000; 30000; 50000; 80000; 130000; 210000; 240000;
               350000; 450000; 500000; 800000];
  limit := 200;
  random_sigma := 100;
  random_groups_per_sigma := 5
|}.

Definition __init__ (c : BackoffClass) : Backoff :=
  {| cls := c; _total_attempts := None; _next_expiration := None |}.

Definition get_next_schedule_item (c : BackoffClass) (index : Z) : result Z :=
  let item :=
    if Z.of_nat (length (schedule c)) <=? index
    then Py.index (schedule c) (-1)
    else Py.index (schedule c) index in
  match item with
  | Some x => Ok x
  | None => Raise IndexError
  end.

(** [sum(f(i) for i in l)]: the generator stops at the first exception. *)
Fixpoint sum_of (f : Z → result Z) (l : list Z) : result Z :=
  match l with
  | [] => Ok 0
  | i :: l' => x ← f i; s ← sum_of f l'; Ok (x + s)
  end.

Definition max_delay (self : Backoff) : result Z :=
  sum_of (get_next_schedule_item (cls self)) (Py.range (limit (cls self))).

(** [message.headers.get('x-death', ())]. *)
Definition x_death (h : store) (message : Message) : result (list death) :=
  match deref h (headers message) !! "x-death" with
  | None => Ok []
  | Some (VDeath records) => Ok records
  | Some _ => Raise TypeError
  end.

(** The counting loop of [next]. *)
Definition count_attempts (records : list death) (backoff_exchange_name : string) : Z :=
  fold_left
    (fun total_attempts deadlettered =>
       if decide (exchange deadlettered = backoff_exchange_name)
       then total_attempts + count deadlettered
       else total_attempts)
    records 0.

(** The [if self.random_sigma:] block of [next]. *)
Definition randomise (c : BackoffClass) (gauss : Z → Z → Q) (expiration : Z) : result Z :=
  if Py.truthy (random_sigma c) then
    let randomised := Py.int_of_float (gauss expiration (random_sigma c)) in
    group_size ← int_truediv (random_sigma c) (random_groups_per_sigma c);
    round_to_nearest randomised group_size
  else Ok expiration.

Definition expired_message (lim : Z) (delay : Z) : string :=
  "Backoff aborted after '" +:+ Py.format_int lim +:+ "' retries (~"
  +:+ Py.format_f0 (inject_Z delay / 1000) +:+ " seconds)".

(** [Backoff.next]: the outcome and the instance after the call. *)
Definition next (self : Backoff) (gauss : Z → Z → Q) (h : store)
    (message : Message) (backoff_exchange_name : string) : result Z * Backoff :=
  match x_death h message with
  | Raise e => (Raise e, self)
  | Ok records =>
    let total_attempts := count_attempts records backoff_exchange_name in
    if Py.truthy (limit (cls self)) && (limit (cls self) <=? total_attempts) then
      match max_delay self with
      | Raise e => (Raise e, self)
      | Ok delay =>
        (Raise (Expired (expired_message (limit (cls self)) delay) self), self)
      end
    else
      match
        expiration ← get_next_schedule_item (cls self) total_attempts;
        randomise (cls self) gauss expiration
      with
      | Raise e => (Raise e, self)
      | Ok expiration =>
        let expiration := Z.abs expiration in
        (Ok expiration,
         {| cls := cls self;
            _total_attempts := Some total_attempts;
            _next_expiration := Some expiration |})
      end
  end.

Definition __str__ (self : Backoff) : result string :=
  match _next_expiration self with
  | Some next_expiration =>
    match _total_attempts self with
    | Some total_attempts =>
      Ok ("Backoff(" +:+ ("retry #" +:+ Py.format_int (total_attempts + 1) +:+ " in "
                          +:+ Py.format_int next_expiration +:+ "ms") +:+ ")")
    | None => Raise TypeError
    end
  | None => Ok ("Backoff(" +:+ "uninitialised" +:+ ")")
  end.

(** ** The broker as [republish] sees it *)

Record Exchange := { exchange_type : string; exchange_name : string }.

Record Queue := {
  queue_name : string;
  queue_exchange : Exchange;
  binding_arguments : dict;
  queue_arguments : dict
}.

Inductive entity :=
| EExchange (e : Exchange)
| EQueue (q : Queue).

(** The arguments of one [producer.publish] call; [pc_headers] is the
    dict object passed as [headers], [pc_properties] the [**properties]. *)
Record PublishCall := {
  pc_body : list Byte.byte;
  pc_headers : loc;
  pc_exchange : Exchange;
  pc_routing_key : string;
  pc_expiration : Q;
  pc_mandatory : bool;
  pc_retry : bool;
  pc_declare : list entity;
  pc_properties : dict
}.

(** What reaches the broker: a queue declaration, or a publish together
    with the content the headers object had when it was sent. *)
Inductive broker_op :=
| Declared (q : Queue)
| Published (call : PublishCall) (sent_headers : dict).

(** How the broker answers one publish: it takes the message, it hands
    it back (a basic.return lands in [channel.returned_messages]), or the
    call raises. *)
Inductive reply :=
| Accepted
| Returned (r : returned_message)
| Raises (e : exn).

(** Everything [republish] can observe or change: the dict objects, the
    channel's queue of returned messages, what was sent to the broker so
    far, and the broker's answers to come (publishes beyond the list are
    accepted; [declare_failure] is what [maybe_declare] raises, if
    anything). *)
Record World := {
  objects : store;
  returned_messages : list returned_message;
  trace : list broker_op;
  declare_failure : option exn;
  replies : list reply
}.

Definition set_objects (h : store) (w : World) : World :=
  {| objects := h; returned_messages := returned_messages w; trace := trace w;
     declare_failure := declare_failure w; replies := replies w |}.

Definition set_returned_messages (q : list returned_message) (w : World) : World :=
  {| objects := objects w; returned_messages := q; trace := trace w;
     declare_failure := declare_failure w; replies := replies w |}.

Definition log (op : broker_op) (w : World) : World :=
  {| objects := objects w; returned_messages := returned_messages w;
     trace := trace w ++ [op];
     declare_failure := declare_failure w; replies := replies w |}.

(** The next answer of the broker, and the world without it. *)
Definition pop_reply (w : World) : reply * World :=
  match replies w with
  | [] => (Accepted, w)
  | r :: rest =>
    (r, {| objects := objects w; returned_messages := returned_messages w;
           trace := trace w; declare_failure := declare_failure w;
           replies := rest |})
  end.

(** [nameko.utils.retry.retry(for_exceptions=UndeliverableMessage)]: the
    wrapped call is made again while it raises [UndeliverableMessage],
    at most [max_attempts] more times; any other outcome is final. The
    decorator is not part of this module, its bound is a parameter. *)
Fixpoint retry (max_attempts : nat) (wrapped : World → result unit * World)
    (w : World) : result unit * World :=
  match wrapped w with
  | (Raise (UndeliverableMessage r), w') =>
    match max_attempts with
    | O => (Raise (UndeliverableMessage r), w')
    | S n => retry n wrapped w'
    end
  | outcome => outcome
  end.

(** Keyword arguments [producer.publish] is called with explicitly: one
    of them again in [**properties] is a [TypeError] at the call. *)
Definition publish_keywords : list string :=
  ["body"; "headers"; "exchange"; "routing_key"; "expiration"; "mandatory";
   "retry"; "retry_policy"; "declare"].

Definition keyword_clash (properties : dict) : bool :=
  existsb (fun k => bool_decide (is_Some (properties !! k))) publish_keywords.

Module BackoffPublisher.

Definition exchange : Exchange :=
  {| exchange_type := "headers"; exchange_name := "backoff" |}.

Definition make_queue (expiration : Z) : Queue := {|
  queue_name := get_backoff_queue_name expiration;
  queue_exchange := exchange;
  binding_arguments :=
    <["backoff" := VInt expiration]> (<["x-match" := VStr "any"]> ∅);
  queue_arguments :=
    <["x-expires" := VInt (expiration + EXPIRY_GRACE_PERIOD)]>
      (<["x-dead-letter-exchange" := VStr ""]> ∅)
|}.

(** [maybe_declare(queue, producer.channel, retry=True, ...)]. *)
Definition maybe_declare (queue : Queue) (w : World) : result unit * World :=
  match declare_failure w with
  | Some e => (Raise e, w)
  | None => (Ok tt, log (Declared queue) w)
  end.

(** The arguments the inner [publish] passes to [producer.publish]. *)
Definition publish_call (message : Message) (headers : loc) (target_queue : string)
    (expiration_seconds : Q) (queue : Queue) (properties : dict) : PublishCall := {|
  pc_body := body message;
  pc_headers := headers;
  pc_exchange := exchange;
  pc_routing_key := target_queue;
  pc_expiration := expiration_seconds;
  pc_mandatory := true;
  pc_retry := true;
  pc_declare := [EExchange (queue_exchange queue); EQueue queue];
  pc_properties := properties
|}.

(** The inner function [publish] of [republish], before decoration. *)
Definition publish (message : Message) (headers : loc) (target_queue : string)
    (expiration_seconds : Q) (queue : Queue) (properties : dict)
    (w : World) : result unit * World :=
  if keyword_clash properties then (Raise TypeError, w)
  else
    let call := publish_call message headers target_queue expiration_seconds
                  queue properties in
    let '(answer, w) := pop_reply (log (Published call (deref (objects w) headers)) w) in
    let sent :=
      match answer with
      | Raises (ChannelError text) =>
        if Py.contains "NO_ROUTE" text
        then (Raise (UndeliverableMessage None), w)
        else (Raise (ChannelError text), w)
      | Raises e => (Raise e, w)
      | Returned r =>
        (Ok tt, set_returned_messages (returned_messages w ++ [r]) w)
      | Accepted => (Ok tt, w)
      end in
    match sent with
    | (Raise e, w) => (Raise e, w)
    | (Ok _, w) =>
      match returned_messages w with
      | [] => (Ok tt, w)
      | returned :: rest =>
        (Raise (UndeliverableMessage (Some returned)),
         set_returned_messages rest w)
      end
    end.

Section Republish.

Variable gauss : Z → Z → Q.
Variable max_attempts : nat.

(** [republish]: the outcome, the [Backoff] instance and the world
    after the call. *)
Definition republish (backoff_exc : Backoff) (message : Message)
    (target_queue : string) (w : World) : result unit * Backoff * World :=
  match next backoff_exc gauss (objects w) message (exchange_name exchange) with
  | (Raise e, backoff_exc) => (Raise e, backoff_exc, w)
  | (Ok expiration, backoff_exc) =>
    let queue := make_queue expiration in
    let properties := properties message in
    match properties !! "application_headers" with
    | None => (Raise (KeyError "application_headers"), backoff_exc, w)
    | Some (VRef headers) =>
      let properties := delete "application_headers" properties in
      let w :=
        set_objects
          (<[headers := <["backoff" := VInt expiration]> (deref (objects w) headers)]>
             (objects w)) w in
      let expiration_seconds := inject_Z expiration in
      match maybe_declare queue w with
      | (Raise e, w) => (Raise e, backoff_exc, w)
      | (Ok _, w) =>
        let '(outcome, w) :=
          retry max_attempts
            (publish message headers target_queue expiration_seconds queue properties)
            w in
        (outcome, backoff_exc, w)
      end
    | Some _ => (Raise TypeError, backoff_exc, w)
    end
  end.

End Republish.

End BackoffPublisher.

(** What kombu's [Producer.publish] makes of its [expiration] argument,
    which it reads as seconds: the message property [expiration], in
    milliseconds, [str(int(expiration * 1000))]. *)
Definition kombu_expiration (expiration : Q) : result string :=
  ms ← float_int (float_mul expiration 1000);
  Ok (Py.format_int ms).

(** ** Vocabulary of the statements *)

(** The sum of the [count] fields of a list of records. *)
Definition sum_counts (records : list death) : Z :=
  foldr (fun d s => count d + s) 0 records.

(** The records of a history that name a given exchange. *)
Definition matching (name : string) (records : list death) : list death :=
  filter (fun d => exchange d = name) records.

(** The schedule entry at position [i], the last one past the end. *)
Definition clamped (sched : list Z) (i : nat) : Z :=
  default 0 (sched !! Nat.min i (length sched - 1)).

(** The sum of the clamped schedule entries at 0, ..., lim - 1. *)
Definition total_wait (sched : list Z) (lim : Z) : Z :=
  foldr Z.add 0 (clamped sched <$> seq 0 (Z.to_nat lim)).

(** A sequence of [next] calls on one instance, each with its own
    sample source, store, message and exchange name. *)
Record next_call := {
  call_gauss : Z → Z → Q;
  call_store : store;
  call_message : Message;
  call_exchange_name : string
}.

Fixpoint run_next (self : Backoff) (calls : list next_call) : list (result Z) * Backoff :=
  match calls with
  | [] => ([], self)
  | c :: rest =>
    let '(r, self) :=
      next self (call_gauss c) (call_store c) (call_message c) (call_exchange_name c) in
    let '(rs, self) := run_next self rest in
    (r :: rs, self)
  end.

Definition raised {A} (r : result A) : Prop := ∃ e, r = Raise e.

(** The publishes of a trace, in order. *)
Definition publishes (t : list broker_op) : list (PublishCall * dict) :=
  omap (fun op => match op with
                  | Published c sent => Some (c, sent)
                  | Declared _ => None
                  end) t.

(** The declarations of a trace, in order. *)
Definition declarations (t : list broker_op) : list Queue :=
  omap (fun op => match op with
                  | Declared q => Some q
                  | Published _ _ => None
                  end) t.





(** The world in which [republish] makes its first publish: the headers
    object carries the delay and the delay queue has been declared. *)
Definition prepared (expiration : Z) (hdr : loc) (w : World) : World :=
  log (Declared (BackoffPublisher.make_queue expiration))
    (set_objects
       (<[hdr := <["backoff" := VInt expiration]> (deref (objects w) hdr)]> (objects w))
       w).

(** ** Sample policies, messages and worlds *)

Module Sample.

(** A policy without jitter. *)
Definition no_jitter (sched : list Z) (lim : Z) : BackoffClass :=
  {| schedule := sched; limit := lim;
     random_sigma := 0; random_groups_per_sigma := 5 |}.

(** The class schedule with another limit, sigma and number of groups. *)
Definition tuned (lim sigma groups : Z) : BackoffClass :=
  {| schedule := schedule Backoff_class; limit := lim;
     random_sigma := sigma; random_groups_per_sigma := groups |}.

(** A sample source that always draws [q]. *)
Definition draws (q : Q) : Z → Z → Q := fun _ _ => q.

(** A history of [n] trips through the backoff exchange, with an
    unrelated record in between. *)
Definition history (n : Z) : list death :=
  [Death "backoff" 1; Death "orders.dlx" 4; Death "backoff" (n - 1)].

(** One headers object, at location 1, shared by [message.headers] and
    [message.properties['application_headers']]. *)
Definition a_store (records : list death) : store :=
  {[ 1%positive := {[ "x-death" := VDeath records; "trace-id" := VStr "abc" ]} ]}.

Definition fresh_store : store :=
  {[ 1%positive := {[ "trace-id" := VStr "abc" ]} ]}.

Definition a_message : Message :=
  {| body := [Byte.x68; Byte.x69];
     headers := 1%positive;
     properties := {[ "application_headers" := VRef 1%positive;
                      "delivery_mode" := VInt 2 ]} |}.

Definition a_world (h : store) (answers : list reply) : World :=
  {| objects := h; returned_messages := []; trace := [];
     declare_failure := None; replies := answers |}.

(** The world of a message that went through backoff twice. *)
Definition second_round (answers : list reply) : World :=
  a_world (a_store (history 2)) answers.

(** Instances: the class schedule with limit 2, and with neither limit
    nor jitter. *)
Definition limited : Backoff := __init__ (tuned 2 100 5).
Definition plain : Backoff := __init__ (tuned 0 0 5).

Definition a_call (records : list death) : next_call :=
  {| call_gauss := draws 0; call_store := a_store records;
     call_message := a_message; call_exchange_name := "backoff" |}.

End Sample.

(** ** Further vocabulary *)

(** The sum of a list of integers. *)
Definition sum_Z (l : list Z) : Z := foldr Z.add 0 l.

(** An instance whose delay is recorded has its attempt count recorded
    too: what [__str__] needs to render. *)
Definition coherent (self : Backoff) : Prop :=
  is_Some (_next_expiration self) → is_Some (_total_attempts self).


(** The world once [republish] has written the delay into the headers
    object. *)
Definition written (expiration : Z) (hdr : loc) (w : World) : World :=
  set_objects
    (<[hdr := <["backoff" := VInt expiration]> (deref (objects w) hdr)]> (objects w)) w.


Module Case.


(** A message whose properties hold no [application_headers]. *)
Definition bare_message : Message :=
  {| body := [Byte.x68; Byte.x69];
     headers := 1%positive;
     properties := {[ "delivery_mode" := VInt 2 ]} |}.



(** The instance [Sample.plain] after a call that counted two attempts. *)
Definition plain_after : Backoff :=
  {| cls := Sample.tuned 0 0 5;
     _total_attempts := Some 2; _next_expiration := Some 30000 |}.

End Case.

(** * Properties of the schedule *)

Section CountingFacts.

Variable name : string.

Let step (total_attempts : Z) (deadlettered : death) : Z :=
  if decide (exchange deadlettered = name)
  then total_attempts + count deadlettered
  else total_attempts.

Lemma fold_step_acc (records : list death) (acc : Z) :
  fold_left step records acc = acc + sum_counts (matching name records).
Proof.
  revert acc. induction records as [|d records IH]; intros acc; simpl.
  - lia.
  - rewrite IH. unfold step, matching. rewrite filter_cons.
    destruct (decide (exchange d = name)); simpl; fold (matching name records); lia.
Qed.

Lemma count_attempts_sum (records : list death) :
  count_attempts records name = sum_counts (matching name records).
Proof. unfold count_attempts. fold step. rewrite fold_step_acc. lia. Qed.

Lemma count_attempts_skip (l1 l2 : list death) (d : death) :
  exchange d ≠ name →
  count_attempts (l1 ++ d :: l2) name = count_attempts (l1 ++ l2) name.
Proof.
  intros Hne. rewrite !count_attempts_sum. unfold matching.
  rewrite !filter_app, filter_cons. destruct (decide (exchange d = name)); [done|]. done.
Qed.

End CountingFacts.

(** Whatever [next] raises, it hands the instance back as it was. *)
Lemma next_raise_keeps_instance (self : Backoff) gauss h message name e :
  (next self gauss h message name).1 = Raise e →
  (next self gauss h message name).2 = self.
Proof.
  unfold next.
  destruct (x_death h message) as [records|e0]; [|done].
  simpl. destruct (_ && _).
  - destruct (max_delay self); done.
  - destruct (get_next_schedule_item _ _ ≫= _); [discriminate|done].
Qed.

(** A successful [next] records the count of the history it was given. *)
Lemma next_ok_records (self : Backoff) gauss h message name records d :
  x_death h message = Ok records →
  (next self gauss h message name).1 = Ok d →
  (next self gauss h message name).2 =
    {| cls := cls self;
       _total_attempts := Some (count_attempts records name);
       _next_expiration := Some d |}.
Proof.
  unfold next. intros ->. simpl.
  destruct (_ && _).
  - destruct (max_delay self); discriminate.
  - destruct (get_next_schedule_item _ _ ≫= _); [|discriminate].
    simpl. intros [= <-]. done.
Qed.

(** C1: the attempt count of [next] is the sum of the [count] fields of
    exactly the history records whose exchange is the backoff exchange
    name: records of another exchange change nothing, an absent or empty
    history counts 0, and the count is what a successful call records. *)
Theorem next_counts_matching_records (self : Backoff) (gauss : Z → Z → Q)
    (h : store) (message : Message) (name : string) (records : list death) :
  x_death h message = Ok records →
  count_attempts records name = sum_counts (matching name records)
  ∧ (∀ l1 l2 d, exchange d ≠ name →
       count_attempts (l1 ++ d :: l2) name = count_attempts (l1 ++ l2) name)
  ∧ (deref h (headers message) !! "x-death" = None → records = [])
  ∧ (records = [] → count_attempts records name = 0)
  ∧ (∀ d, (next self gauss h message name).1 = Ok d →
       _total_attempts (next self gauss h message name).2
       = Some (sum_counts (matching name records))).
Proof.
  intros Hx. split_and!.
  - apply count_attempts_sum.
  - intros. by apply count_attempts_skip.
  - intros Hnone. unfold x_death in Hx. rewrite Hnone in Hx. by injection Hx.
  - by intros ->.
  - intros d Hd. rewrite (next_ok_records _ _ _ _ _ _ _ Hx Hd). simpl.
    by rewrite count_attempts_sum.
Qed.

Lemma schedule_item_clamped (c : BackoffClass) (i : nat) :
  schedule c ≠ [] →
  get_next_schedule_item c (Z.of_nat i) = Ok (clamped (schedule c) i)
  ∧ schedule c !! Nat.min i (length (schedule c) - 1) = Some (clamped (schedule c) i).
Proof.
  intros Hne. unfold get_next_schedule_item, clamped, Py.index.
  assert (0 < length (schedule c))%nat as Hlen.
  { destruct (schedule c); [done|simpl; lia]. }
  destruct (lookup_lt_is_Some_2 (schedule c) (Nat.min i (length (schedule c) - 1)))
    as [x Hx]; [lia|].
  rewrite Hx. simpl. split; [|done].
  destruct (Z.leb_spec (Z.of_nat (length (schedule c))) (Z.of_nat i)) as [Hge|Hlt].
  - destruct (Z.leb_spec 0 (-1)) as [?|_]; [lia|].
    destruct (Z.leb_spec 0 (Z.of_nat (length (schedule c)) + -1)) as [_|?]; [|lia].
    replace (Z.to_nat (Z.of_nat (length (schedule c)) + -1))
      with (Nat.min i (length (schedule c) - 1)) by lia.
    by rewrite Hx.
  - destruct (Z.leb_spec 0 (Z.of_nat i)) as [_|?]; [|lia].
    replace (Z.to_nat (Z.of_nat i)) with (Nat.min i (length (schedule c) - 1)) by lia.
    by rewrite Hx.
Qed.

(** C3: on a non-empty schedule and an index that is not negative,
    [get_next_schedule_item] yields the entry at the index when the index
    is below the schedule's length and the last entry otherwise; so for
    an attempt count at or past the length, and below the ceiling, the
    delay of [next] is computed from the last entry. *)
Theorem schedule_item_clamps_to_last (c : BackoffClass) (index : Z) :
  schedule c ≠ [] → 0 ≤ index →
  (index < Z.of_nat (length (schedule c)) →
     ∃ item, schedule c !! Z.to_nat index = Some item
             ∧ get_next_schedule_item c index = Ok item)
  ∧ (Z.of_nat (length (schedule c)) ≤ index →
     ∃ item, last (schedule c) = Some item
             ∧ get_next_schedule_item c index = Ok item
             ∧ ∀ self gauss h message name records,
                 cls self = c →
                 x_death h message = Ok records →
                 count_attempts records name = index →
                 Py.truthy (limit c) && (limit c <=? index) = false →
                 (next self gauss h message name).1
                 = (d ← randomise c gauss item; Ok (Z.abs d))).
Proof.
  intros Hne Hidx.
  destruct (schedule_item_clamped c (Z.to_nat index) Hne) as [Hget Hlook].
  rewrite Z2Nat.id in Hget by done.
  split; intros Hcmp; exists (clamped (schedule c) (Z.to_nat index)).
  - split; [|done].
    by replace (Nat.min (Z.to_nat index) (length (schedule c) - 1))
      with (Z.to_nat index) in Hlook by lia.
  - split_and!; [|done|].
    + rewrite last_lookup.
      by replace (Nat.min (Z.to_nat index) (length (schedule c) - 1))
        with (Nat.pred (length (schedule c))) in Hlook by lia.
    + intros self gauss h message name records <- Hx Hcount Hbelow.
      unfold next. rewrite Hx. simpl. rewrite Hcount, Hbelow, Hget. simpl.
      by destruct (randomise _ _ _).
Qed.

Lemma sum_of_schedule_items (c : BackoffClass) (a n : nat) :
  schedule c ≠ [] →
  sum_of (get_next_schedule_item c) (Z.of_nat <$> seq a n)
  = Ok (foldr Z.add 0 (clamped (schedule c) <$> seq a n)).
Proof.
  intros Hne. revert a. induction n as [|n IH]; intros a; simpl; [done|].
  destruct (schedule_item_clamped c a Hne) as [-> _]. simpl.
  by rewrite IH.
Qed.

Lemma max_delay_total_wait (self : Backoff) :
  schedule (cls self) ≠ [] →
  max_delay self = Ok (total_wait (schedule (cls self)) (limit (cls self))).
Proof. intros Hne. unfold max_delay, Py.range. by apply sum_of_schedule_items. Qed.

Lemma truthy_spec (z : Z) : Py.truthy z = true ↔ z ≠ 0.
Proof. unfold Py.truthy. destruct (Z.eqb_spec z 0); simpl; split; try done; lia. Qed.

Lemma ceiling_spec (lim total : Z) :
  Py.truthy lim && (lim <=? total) = true ↔ lim ≠ 0 ∧ lim ≤ total.
Proof. rewrite andb_true_iff, truthy_spec, Z.leb_le. done. Qed.

Lemma randomise_not_expired (c : BackoffClass) gauss x :
  is_expired (randomise c gauss x) = false.
Proof.
  unfold randomise, int_truediv, round_to_nearest, float_of_int, float_truediv,
    float_round, float_int, float_mul.
  repeat (simpl;
          match goal with
          | |- context [if ?b then _ else _] => destruct b
          | |- context [Double.of_real ?q] => destruct (Double.of_real q)
          end); done.
Qed.


(** * Jitter *)

(** ** Rounding to the nearest integer *)

Lemma int_of_float_integer (q : Q) (n : Z) :
  (q == inject_Z n)%Q → Py.int_of_float q = n.
Proof.
  intros Hq. unfold Py.int_of_float.
  rewrite (Qfloor_comp _ _ Hq), (Qceiling_comp _ _ Hq), Qfloor_Z, Qceiling_Z.
  by destruct (Qle_bool 0 q).
Qed.

Lemma round_near (q : Q) :
  (inject_Z (Py.round q) - (1 # 2) <= q)%Q ∧ (q <= inject_Z (Py.round q) + (1 # 2))%Q.
Proof.
  unfold Py.round.
  pose proof (Qfloor_le q) as Hlo. pose proof (Qlt_floor q) as Hhi.
  rewrite inject_Z_plus in Hhi. change (inject_Z 1) with 1%Q in Hhi.
  destruct (Qcompare_spec (q - inject_Z (Qfloor q)) (1 # 2)) as [He|Hl|Hg].
  - destruct (Z.even (Qfloor q)); rewrite ?inject_Z_plus;
      change (inject_Z 1) with 1%Q; split; lra.
  - split; lra.
  - rewrite inject_Z_plus. change (inject_Z 1) with 1%Q. split; lra.
Qed.

Lemma round_comp (q q' : Q) : (q == q')%Q → Py.round q = Py.round q'.
Proof.
  intros H. unfold Py.round. rewrite (Qfloor_comp _ _ H).
  assert (q - inject_Z (Qfloor q') == q' - inject_Z (Qfloor q'))%Q as H' by (rewrite H; reflexivity).
  by rewrite (Qcompare_comp _ _ H' (1 # 2) (1 # 2) (Qeq_refl _)).
Qed.

Lemma round_integer (k : Z) : Py.round (inject_Z k) = k.
Proof.
  unfold Py.round. rewrite Qfloor_Z.
  destruct (Qcompare_spec (inject_Z k - inject_Z k) (1 # 2)) as [He|Hl|Hg]; [lra|done|lra].
Qed.

(** Integers compared through the rationals. *)
Lemma Zlt_of_Qlt (a b : Z) : (inject_Z a < inject_Z b)%Q → a < b.
Proof. unfold Qlt. simpl. lia. Qed.

Lemma Zle_of_Qle (a b : Z) : (inject_Z a <= inject_Z b)%Q → a ≤ b.
Proof. unfold Qle. simpl. lia. Qed.

Lemma Qlt_of_Zlt (a b : Z) : a < b → (inject_Z a < inject_Z b)%Q.
Proof. unfold Qlt. simpl. lia. Qed.

Lemma Qle_of_Zle (a b : Z) : a ≤ b → (inject_Z a <= inject_Z b)%Q.
Proof. unfold Qle. simpl. lia. Qed.

(** The integer strictly within a half of a rational is its rounding. *)
Lemma round_unique (q : Q) (j : Z) :
  (inject_Z j - (1 # 2) < q)%Q → (q < inject_Z j + (1 # 2))%Q → Py.round q = j.
Proof.
  intros Hlo Hhi. unfold Py.round.
  pose proof (Qfloor_le q) as Hfl. pose proof (Qlt_floor q) as Hfh.
  rewrite inject_Z_plus in Hfh. change (inject_Z 1) with 1%Q in Hfh.
  set (f := Qfloor q) in *.
  assert (f ≤ j) as Hfj.
  { assert (2 * f < 2 * j + 1); [|lia]. apply Zlt_of_Qlt.
    rewrite inject_Z_plus, !inject_Z_mult.
    change (inject_Z 2) with 2%Q. change (inject_Z 1) with 1%Q. lra. }
  assert (j - 1 ≤ f) as Hjf.
  { assert (2 * j - 1 < 2 * f + 2); [|lia]. apply Zlt_of_Qlt.
    replace (2 * j - 1) with (2 * j + -1) by lia.
    rewrite !inject_Z_plus, !inject_Z_mult.
    change (inject_Z 2) with 2%Q. change (inject_Z (-1)) with (-1)%Q. lra. }
  destruct (Z.eq_dec f j) as [Heq|Hne].
  - rewrite Heq in *.
    destruct (Qcompare_spec (q - inject_Z j) (1 # 2)) as [He|Hl|Hg]; [lra|done|lra].
  - assert (f = j - 1) as Hf by lia.
    assert (inject_Z f == inject_Z j - 1)%Q as HfQ.
    { rewrite Hf. replace (j - 1) with (j + -1) by lia. rewrite inject_Z_plus.
      change (inject_Z (-1)) with (-1)%Q. lra. }
    destruct (Qcompare_spec (q - inject_Z f) (1 # 2)) as [He|Hl|Hg]; [lra|lra|lia].
Qed.

Lemma two_neq_0 : ¬ (2 == 0)%Q.
Proof. discriminate. Qed.

Lemma pow2_pos (e : Z) : (0 < 2 ^ e)%Q.
Proof. apply Qpower_0_lt. reflexivity. Qed.

Lemma pow2_Z (a : Z) : 0 ≤ a → (2 ^ a == inject_Z (2 ^ a))%Q.
Proof. intros Ha. rewrite (Zpower_Qpower 2 a Ha). reflexivity. Qed.

Lemma Qabs_frac (n : Z) (d : positive) : Qabs (n # d) = (Z.abs n # d).
Proof. reflexivity. Qed.

(** The floor of the logarithm is a lower bound. *)
Lemma ilog2_lower (x : Q) : ¬ (x == 0)%Q → (2 ^ Double.ilog2 x <= Qabs x)%Q.
Proof.
  intros Hx. unfold Double.ilog2.
  set (k := Z.log2 (Z.abs (Qnum x)) - Z.log2 (Z.pos (Qden x))).
  destruct (Qle_bool (2 ^ k) (Qabs x)) eqn:Htest; [by apply Qle_bool_iff|].
  destruct x as [n d]. cbn [Qnum Qden] in k.
  assert (n ≠ 0) as Hn.
  { intros ->. apply Hx. reflexivity. }
  set (a := Z.log2 (Z.abs n)) in *. set (b := Z.log2 (Z.pos d)) in *.
  assert (0 ≤ a) by apply Z.log2_nonneg. assert (0 ≤ b) by apply Z.log2_nonneg.
  assert (2 ^ a ≤ Z.abs n) as Ha by (apply Z.log2_spec; lia).
  assert (Z.pos d < 2 ^ (b + 1)) as Hb.
  { replace (b + 1) with (Z.succ b) by lia. apply Z.log2_spec. lia. }
  replace (k - 1) with (a - (b + 1)) by (unfold k; lia).
  clear k Htest. clearbody a b.
  rewrite Qpower_minus by apply two_neq_0.
  rewrite (pow2_Z a), (pow2_Z (b + 1)) by lia.
  rewrite Qabs_frac.
  assert (0 < 2 ^ a) by (apply Z.pow_pos_nonneg; lia).
  assert (0 < 2 ^ (b + 1)) by (apply Z.pow_pos_nonneg; lia).
  apply Qle_shift_div_r; [apply (Qlt_of_Zlt 0); lia|].
  unfold Qle. simpl. nia.
Qed.

(** ** Rounding to the nearest double *)

Lemma nearest_comp (x y : Q) : (x == y)%Q → Double.nearest x = Double.nearest y.
Proof. intros H. unfold Double.nearest. by rewrite (Qred_complete _ _ H). Qed.

Lemma nearest_zero (x : Q) : (x == 0)%Q → (Double.nearest x == 0)%Q.
Proof.
  intros H. unfold Double.nearest.
  replace (Qeq_bool (Qred x) 0) with true; [reflexivity|].
  symmetry. apply Qeq_bool_iff. by rewrite Qred_correct.
Qed.

(** Off zero, [nearest] rounds the multiple of the unit in the last
    place, and that unit is small against the number. *)
Lemma nearest_unfold (x : Q) :
  ¬ (x == 0)%Q →
  ∃ E : Z,
    (Double.nearest x == inject_Z (Py.round (x / 2 ^ E)) * 2 ^ E)%Q
    ∧ ((2 ^ (E + 52) <= Qabs x)%Q ∨ E = -1074)
    ∧ -1074 ≤ E.
Proof.
  intros Hx. exists (Double.ulp_exponent (Qred x)).
  assert (¬ (Qred x == 0)%Q) as Hx' by (by rewrite Qred_correct).
  split_and!.
  - unfold Double.nearest.
    replace (Qeq_bool (Qred x) 0) with false.
    2: { symmetry. apply not_true_is_false. intros Ht. by apply Qeq_bool_iff in Ht. }
    cbv zeta. etransitivity; [apply Qred_correct|].
    assert (Qred x / 2 ^ Double.ulp_exponent (Qred x)
            == x / 2 ^ Double.ulp_exponent (Qred x))%Q as Hq.
    { apply Qmult_comp; [apply Qred_correct|reflexivity]. }
    rewrite (round_comp _ _ Hq). reflexivity.
  - unfold Double.ulp_exponent.
    destruct (Z.max_spec (Double.ilog2 (Qred x) - 52) (-1074)) as [[_ ->]|[_ ->]];
      [by right|left].
    replace (Double.ilog2 (Qred x) - 52 + 52) with (Double.ilog2 (Qred x)) by lia.
    rewrite <- (Qred_correct x) at 2. by apply ilog2_lower.
  - unfold Double.ulp_exponent. lia.
Qed.

(** The error of [nearest] is at most half a unit in the last place. *)
Lemma nearest_error (x : Q) (E : Z) :
  (Double.nearest x == inject_Z (Py.round (x / 2 ^ E)) * 2 ^ E)%Q →
  (Qabs (Double.nearest x - x) <= 2 ^ E * (1 # 2))%Q.
Proof.
  intros ->. pose proof (pow2_pos E) as Hu.
  destruct (round_near (x / 2 ^ E)) as [Hlo Hhi].
  set (k := inject_Z (Py.round (x / 2 ^ E))) in *.
  assert (x == x / 2 ^ E * 2 ^ E)%Q as Hx by (field; lra).
  set (t := (x / 2 ^ E)%Q) in *. set (u := (2 ^ E)%Q) in *.
  apply Qabs_Qle_condition. rewrite Hx. split.
  - assert ((t - k) * u <= (1 # 2) * u)%Q by (apply Qmult_le_compat_r; lra). lra.
  - assert ((k - t) * u <= (1 # 2) * u)%Q by (apply Qmult_le_compat_r; lra). lra.
Qed.

Lemma pow2_split (a b : Z) : (2 ^ (a + b) == 2 ^ a * 2 ^ b)%Q.
Proof. apply Qpower_plus. apply two_neq_0. Qed.

(** A number with few enough bits is a double. *)
Lemma nearest_exact (x : Q) (n s : Z) :
  0 ≤ s ≤ 1074 →
  (x * 2 ^ s == inject_Z n)%Q → (Qabs x < 2 ^ (53 - s))%Q →
  (Double.nearest x == x)%Q.
Proof.
  intros Hs Hn Hbound.
  destruct (Qeq_dec x 0) as [H0|H0]; [rewrite H0 at 2; by apply nearest_zero|].
  destruct (nearest_unfold x H0) as (E & Hnear & Hulp & Hmin).
  assert (E ≤ - s) as HE.
  { destruct Hulp as [Hulp| ->]; [|lia].
    assert (2 ^ (E + 52) < 2 ^ (53 - s))%Q as Hlt by (eapply Qle_lt_trans; eauto).
    apply Qpower_lt_compat_l_inv in Hlt; [lia|reflexivity]. }
  assert (x / 2 ^ E == inject_Z (n * 2 ^ (- s - E)))%Q as Hint.
  { rewrite inject_Z_mult, <- Hn, <- pow2_Z by lia.
    replace (- s - E) with (- s + - E) by lia.
    rewrite pow2_split, !Qpower_opp.
    pose proof (pow2_pos s). pose proof (pow2_pos E). field. split; lra. }
  rewrite Hnear, (round_comp _ _ Hint), round_integer, <- Hint.
  pose proof (pow2_pos E). field. lra.
Qed.

Lemma nearest_int (n : Z) :
  Z.abs n < 2 ^ 53 → (Double.nearest (inject_Z n) == inject_Z n)%Q.
Proof.
  intros Hn. apply (nearest_exact _ n 0); [lia| |].
  - rewrite Qpower_0_r. lra.
  - change (53 - 0) with 53. rewrite (pow2_Z 53) by lia.
    change (Qabs (inject_Z n)) with (inject_Z (Z.abs n)). by apply Qlt_of_Zlt.
Qed.

Lemma of_real_finite (x : Q) :
  (Qabs (Double.nearest x) < inject_Z (2 ^ 1024))%Q →
  Double.of_real x = Double.Finite (Double.nearest x).
Proof.
  intros H. unfold Double.of_real.
  replace (Qle_bool _ _) with false; [done|].
  symmetry. apply not_true_is_false. intros Ht. apply Qle_bool_iff in Ht. lra.
Qed.

Lemma small_is_finite (y : Q) (b : Z) :
  (Qabs y <= inject_Z b)%Q → b < 2 ^ 1024 → (Qabs y < inject_Z (2 ^ 1024))%Q.
Proof. intros Hy Hb. eapply Qle_lt_trans; [exact Hy|]. by apply Qlt_of_Zlt. Qed.

Lemma pow2_m52 : (2 ^ (-52) == 1 # 4503599627370496)%Q.
Proof. reflexivity. Qed.

Lemma pow2_tiny : (2 ^ (-1074) * inject_Z (2 ^ 53) < 1)%Q.
Proof. vm_compute. reflexivity. Qed.

(** The error of [nearest] on a quotient of two integers below 2^52 is
    less than half the inverse of the divisor. *)
Lemma nearest_quotient_error (r g : Z) :
  0 < g < 2 ^ 52 → Z.abs r < 2 ^ 52 →
  let x := (inject_Z r / inject_Z g)%Q in
  (Qabs (Double.nearest x - x) * (2 * inject_Z g) < 1)%Q.
Proof.
  intros Hg Hr x.
  assert (1 <= inject_Z g)%Q as HG1 by (apply (Qle_of_Zle 1); lia).
  assert (inject_Z g < inject_Z (2 ^ 52))%Q as HG2 by (apply Qlt_of_Zlt; lia).
  change (inject_Z (2 ^ 52)) with 4503599627370496%Q in HG2.
  destruct (Qeq_dec x 0) as [H0|H0].
  { assert (Double.nearest x - x == 0)%Q as ->
      by (rewrite (nearest_zero x H0), H0; reflexivity).
    change (Qabs 0) with 0%Q. lra. }
  destruct (nearest_unfold x H0) as (E & Hnear & Hulp & Hmin).
  pose proof (nearest_error x E Hnear) as Herr.
  pose proof (Qabs_nonneg (Double.nearest x - x)) as Hnn.
  set (err := Qabs (Double.nearest x - x)) in *.
  assert (Qabs x * inject_Z g == inject_Z (Z.abs r))%Q as Hxg.
  { unfold x. rewrite <- (Qabs_pos (inject_Z g)) at 2 by lra.
    rewrite <- Qabs_Qmult.
    assert (inject_Z r / inject_Z g * inject_Z g == inject_Z r)%Q as -> by (field; lra).
    reflexivity. }
  assert (inject_Z (Z.abs r) < 4503599627370496)%Q as HR.
  { change 4503599627370496%Q with (inject_Z (2 ^ 52)). by apply Qlt_of_Zlt. }
  destruct Hulp as [Hulp| ->].
  - assert (2 ^ E == 2 ^ (E + 52) * (1 # 4503599627370496))%Q as HE.
    { rewrite <- pow2_m52, <- pow2_split. by replace (E + 52 + -52) with E by lia. }
    rewrite HE in Herr.
    set (p := (2 ^ (E + 52))%Q) in *. set (ax := Qabs x) in *.
    assert (p * inject_Z g <= ax * inject_Z g)%Q
      by (apply Qmult_le_compat_r; lra).
    assert (err * inject_Z g
            <= p * (1 # 4503599627370496) * (1 # 2) * inject_Z g)%Q
      by (apply Qmult_le_compat_r; lra).
    lra.
  - pose proof pow2_tiny as Ht.
    change (inject_Z (2 ^ 53)) with 9007199254740992%Q in Ht.
    set (t := (2 ^ (-1074))%Q) in *.
    assert (0 < t)%Q by apply pow2_pos.
    assert (err * inject_Z g <= t * (1 # 2) * inject_Z g)%Q
      by (apply Qmult_le_compat_r; lra).
    assert (t * inject_Z g <= t * 4503599627370496)%Q
      by (rewrite !(Qmult_comm t); apply Qmult_le_compat_r; lra).
    lra.
Qed.

Lemma quotient_abs_bound (r g : Z) :
  0 < g → (Qabs (inject_Z r / inject_Z g) <= inject_Z (Z.abs r))%Q.
Proof.
  intros Hg.
  assert (1 <= inject_Z g)%Q as HG1 by (apply (Qle_of_Zle 1); lia).
  assert (Qabs (inject_Z r / inject_Z g) * inject_Z g == inject_Z (Z.abs r))%Q as Hxg.
  { rewrite <- (Qabs_pos (inject_Z g)) at 2 by lra.
    rewrite <- Qabs_Qmult.
    assert (inject_Z r / inject_Z g * inject_Z g == inject_Z r)%Q as -> by (field; lra).
    reflexivity. }
  pose proof (Qabs_nonneg (inject_Z r / inject_Z g)) as Hnn.
  set (ax := Qabs (inject_Z r / inject_Z g)) in *.
  assert (ax * 1 <= ax * inject_Z g)%Q
    by (rewrite !(Qmult_comm ax); apply Qmult_le_compat_r; lra).
  lra.
Qed.

(** On a quotient of two integers below 2^52, rounding the double
    nearest to the quotient is rounding the quotient. *)
Lemma round_nearest_quotient (r g : Z) :
  0 < g < 2 ^ 52 → Z.abs r < 2 ^ 52 →
  Py.round (Double.nearest (inject_Z r / inject_Z g))
  = Py.round (inject_Z r / inject_Z g).
Proof.
  intros Hg Hr.
  pose proof (nearest_quotient_error r g Hg Hr) as Herr. cbv zeta in Herr.
  pose proof (quotient_abs_bound r g ltac:(lia)) as Hax.
  assert (1 <= inject_Z g)%Q as HG1 by (apply (Qle_of_Zle 1); lia).
  assert (inject_Z r / inject_Z g * inject_Z g == inject_Z r)%Q as Hxg by (field; lra).
  set (x := (inject_Z r / inject_Z g)%Q) in *.
  set (j := Py.round x).
  destruct (round_near x) as [Hlo Hhi]. fold j in Hlo, Hhi.
  assert (inject_Z (Z.abs r) < inject_Z (2 ^ 52))%Q as HR by (by apply Qlt_of_Zlt).
  (* ties are doubles *)
  assert (∀ n : Z, (x * 2 ^ 1 == inject_Z n)%Q → Double.nearest x == x)%Q as Htie.
  { intros n Hn. apply (nearest_exact x n 1); [lia|done|].
    change (53 - 1) with 52. rewrite (pow2_Z 52) by lia. lra. }
  destruct (Qeq_dec (x - inject_Z j) (1 # 2)) as [Hup|Hup].
  { apply round_comp, (Htie (2 * j + 1)).
    rewrite inject_Z_plus, inject_Z_mult. change (2 ^ 1)%Q with 2%Q.
    change (inject_Z 2) with 2%Q. change (inject_Z 1) with 1%Q. lra. }
  destruct (Qeq_dec (inject_Z j - x) (1 # 2)) as [Hdn|Hdn].
  { apply round_comp, (Htie (2 * j + -1)).
    rewrite inject_Z_plus, inject_Z_mult. change (2 ^ 1)%Q with 2%Q.
    change (inject_Z 2) with 2%Q. change (inject_Z (-1)) with (-1)%Q. lra. }
  (* off the ties, the quotient keeps a distance of 1 / 2g from them *)
  assert (x - inject_Z j < 1 # 2)%Q as Hup' by (apply Qle_lt_or_eq in Hhi as [?|?]; lra).
  assert (inject_Z j - x < 1 # 2)%Q as Hdn' by (apply Qle_lt_or_eq in Hlo as [?|?]; lra).
  assert (2 * r + 1 ≤ (2 * j + 1) * g) as Hzu.
  { assert (2 * r < (2 * j + 1) * g); [|lia]. apply Zlt_of_Qlt.
    rewrite !inject_Z_mult, inject_Z_plus, inject_Z_mult, <- Hxg.
    change (inject_Z 2) with 2%Q. change (inject_Z 1) with 1%Q.
    assert ((x - inject_Z j) * inject_Z g < (1 # 2) * inject_Z g)%Q
      by (apply Qmult_lt_compat_r; lra).
    lra. }
  assert ((2 * j - 1) * g + 1 ≤ 2 * r) as Hzd.
  { assert ((2 * j + -1) * g < 2 * r); [|lia]. apply Zlt_of_Qlt.
    rewrite !inject_Z_mult, inject_Z_plus, inject_Z_mult, <- Hxg.
    change (inject_Z 2) with 2%Q. change (inject_Z (-1)) with (-1)%Q.
    assert ((inject_Z j - x) * inject_Z g < (1 # 2) * inject_Z g)%Q
      by (apply Qmult_lt_compat_r; lra).
    lra. }
  apply Qle_of_Zle in Hzu, Hzd.
  replace ((2 * j - 1) * g + 1) with ((2 * j + -1) * g + 1) in Hzd by lia.
  rewrite !inject_Z_plus, !inject_Z_mult, !inject_Z_plus, !inject_Z_mult in Hzu, Hzd.
  rewrite <- Hxg in Hzu, Hzd.
  change (inject_Z 2) with 2%Q in *. change (inject_Z 1) with 1%Q in *.
  change (inject_Z (-1)) with (-1)%Q in *.
  set (y := Double.nearest x) in *.
  destruct (Qabs_Qle_condition (y - x) (Qabs (y - x))) as [Hc _].
  destruct (Hc (Qle_refl _)) as [Hc1 Hc2]. clear Hc.
  set (e := Qabs (y - x)) in *.
  assert ((x - e) * inject_Z g <= y * inject_Z g)%Q
    by (apply Qmult_le_compat_r; lra).
  assert (y * inject_Z g <= (x + e) * inject_Z g)%Q
    by (apply Qmult_le_compat_r; lra).
  apply round_unique.
  - destruct (Qlt_le_dec (inject_Z j - (1 # 2)) y) as [?|Hbad]; [done|].
    assert (y * inject_Z g <= (inject_Z j - (1 # 2)) * inject_Z g)%Q
      by (apply Qmult_le_compat_r; lra).
    lra.
  - destruct (Qlt_le_dec y (inject_Z j + (1 # 2))) as [?|Hbad]; [done|].
    assert ((inject_Z j + (1 # 2)) * inject_Z g <= y * inject_Z g)%Q
      by (apply Qmult_le_compat_r; lra).
    lra.
Qed.

Lemma inject_Z_nonzero (g : Z) : g ≠ 0 → ¬ (inject_Z g == 0)%Q.
Proof. intros Hg H0. apply Hg. by apply (inject_Z_injective g 0). Qed.

Lemma quotient_opp (r g : Z) :
  g ≠ 0 → (inject_Z r / inject_Z g == inject_Z (- r) / inject_Z (- g))%Q.
Proof.
  intros Hg. pose proof (inject_Z_nonzero g Hg).
  rewrite !inject_Z_opp. field. lra.
Qed.

Lemma round_nearest_quotient_any (r g : Z) :
  g ≠ 0 → Z.abs g < 2 ^ 52 → Z.abs r < 2 ^ 52 →
  Py.round (Double.nearest (inject_Z r / inject_Z g))
  = Py.round (inject_Z r / inject_Z g).
Proof.
  intros Hg Hgb Hr. destruct (Z.lt_total 0 g) as [Hpos|[?|Hneg]]; [|lia|].
  - apply round_nearest_quotient; lia.
  - rewrite (nearest_comp _ _ (quotient_opp r g Hg)),
      (round_comp _ _ (quotient_opp r g Hg)).
    apply round_nearest_quotient; lia.
Qed.

(** The rounding of a quotient of integers, times the divisor, is within
    half the divisor of the dividend. *)
Lemma round_quotient_near (r g : Z) :
  g ≠ 0 → 2 * Z.abs (g * Py.round (inject_Z r / inject_Z g) - r) ≤ Z.abs g.
Proof.
  intros Hg. pose proof (inject_Z_nonzero g Hg) as HG.
  destruct (round_near (inject_Z r / inject_Z g)) as [Hlo Hhi].
  assert (inject_Z r / inject_Z g * inject_Z g == inject_Z r)%Q as Hxg by (field; lra).
  set (x := (inject_Z r / inject_Z g)%Q) in *.
  set (k := Py.round x) in *.
  destruct (Z.lt_total 0 g) as [Hpos|[?|Hneg]]; [|lia|].
  - assert (0 < inject_Z g)%Q by (by apply (Qlt_of_Zlt 0)).
    assert ((inject_Z k - (1 # 2)) * inject_Z g <= x * inject_Z g)%Q
      by (apply Qmult_le_compat_r; lra).
    assert (x * inject_Z g <= (inject_Z k + (1 # 2)) * inject_Z g)%Q
      by (apply Qmult_le_compat_r; lra).
    assert (2 * (g * k) ≤ 2 * r + g ∧ 2 * r ≤ 2 * (g * k) + g) as [? ?]; [|lia].
    split; apply Zle_of_Qle;
      rewrite ?inject_Z_plus, ?inject_Z_mult; change (inject_Z 2) with 2%Q; lra.
  - assert (0 < - inject_Z g)%Q.
    { rewrite <- inject_Z_opp. apply (Qlt_of_Zlt 0). lia. }
    assert ((inject_Z k - (1 # 2)) * - inject_Z g <= x * - inject_Z g)%Q
      by (apply Qmult_le_compat_r; lra).
    assert (x * - inject_Z g <= (inject_Z k + (1 # 2)) * - inject_Z g)%Q
      by (apply Qmult_le_compat_r; lra).
    assert (2 * r ≤ 2 * (g * k) + - g ∧ 2 * (g * k) ≤ 2 * r + - g) as [? ?]; [|lia].
    split; apply Zle_of_Qle;
      rewrite ?inject_Z_plus, ?inject_Z_opp, ?inject_Z_mult;
      change (inject_Z 2) with 2%Q; lra.
Qed.

Lemma nearest_quotient_bound (r g : Z) :
  g ≠ 0 → Z.abs g < 2 ^ 52 → Z.abs r < 2 ^ 52 →
  (Qabs (Double.nearest (inject_Z r / inject_Z g)) <= inject_Z (2 ^ 53))%Q.
Proof.
  assert (∀ r g, 0 < g < 2 ^ 52 → Z.abs r < 2 ^ 52 →
            (Qabs (Double.nearest (inject_Z r / inject_Z g)) <= inject_Z (2 ^ 53))%Q)
    as Hpos.
  { clear. intros r g Hg Hr.
    pose proof (nearest_quotient_error r g Hg Hr) as Herr. cbv zeta in Herr.
    pose proof (quotient_abs_bound r g ltac:(lia)) as Hax.
    assert (1 <= inject_Z g)%Q as HG1 by (apply (Qle_of_Zle 1); lia).
    assert (inject_Z (Z.abs r) <= inject_Z (2 ^ 52))%Q as HR by (apply Qle_of_Zle; lia).
    set (x := (inject_Z r / inject_Z g)%Q) in *.
    set (y := Double.nearest x) in *.
    pose proof (Qabs_nonneg (y - x)) as Hnn.
    assert (y == x + (y - x))%Q as Hy by ring.
    rewrite Hy. eapply Qle_trans; [apply Qabs_triangle|].
    set (e := Qabs (y - x)) in *.
    assert (e * 1 <= e * inject_Z g)%Q
      by (rewrite !(Qmult_comm e); apply Qmult_le_compat_r; lra).
    change (inject_Z (2 ^ 52)) with 4503599627370496%Q in HR.
    change (inject_Z (2 ^ 53)) with 9007199254740992%Q. lra. }
  intros Hg Hgb Hr. destruct (Z.lt_total 0 g) as [?|[?|Hneg]]; [|lia|].
  - apply Hpos; lia.
  - rewrite (nearest_comp _ _ (quotient_opp r g Hg)). apply Hpos; lia.
Qed.

Lemma of_real_comp (x y : Q) : (x == y)%Q → Double.of_real x = Double.of_real y.
Proof. intros H. unfold Double.of_real. by rewrite (nearest_comp _ _ H). Qed.

Lemma float_of_int_exact (n : Z) :
  Z.abs n < 2 ^ 53 →
  ∃ v, float_of_int n = Ok v ∧ (v == inject_Z n)%Q.
Proof.
  intros Hn. pose proof (nearest_int n Hn) as Hv.
  exists (Double.nearest (inject_Z n)). split; [|done].
  unfold float_of_int. rewrite of_real_finite; [done|].
  apply (small_is_finite _ (2 ^ 53)); [|done].
  rewrite Hv. change (Qabs (inject_Z n)) with (inject_Z (Z.abs n)).
  apply Qle_of_Zle. lia.
Qed.

(** For an interval that is an integer g, with g and the value below
    2^52 in absolute value, the doubles of [round_to_nearest] carry every
    intermediate result exactly where it matters: the result is g times
    the rounding of the exact quotient. *)
Lemma round_to_nearest_integral (value g : Z) (interval : Q) :
  (interval == inject_Z g)%Q → g ≠ 0 → Z.abs g < 2 ^ 52 → Z.abs value < 2 ^ 52 →
  round_to_nearest value interval
  = Ok (g * Py.round (inject_Z value / inject_Z g)).
Proof.
  intros Hint Hg Hgb Hvb.
  pose proof (inject_Z_nonzero g Hg) as HG.
  pose proof (round_quotient_near value g Hg) as Hnear.
  pose proof (round_nearest_quotient_any value g Hg Hgb Hvb) as Hround.
  set (k := Py.round (inject_Z value / inject_Z g)) in *.
  assert (Z.abs (g * k) < 2 ^ 53) as Hgk by lia.
  assert (Z.abs k < 2 ^ 53) as Hk by nia.
  unfold round_to_nearest.
  destruct (float_of_int_exact value) as (v & -> & Hv); [lia|]. simpl.
  assert (v / interval == inject_Z value / inject_Z g)%Q as Hq
    by (by rewrite Hv, Hint).
  unfold float_truediv.
  replace (Qeq_bool interval 0) with false.
  2: { symmetry. apply not_true_is_false. intros Ht. apply Qeq_bool_iff in Ht.
       apply HG. by rewrite <- Hint. }
  simpl. rewrite (of_real_comp _ _ Hq), of_real_finite.
  2: { apply (small_is_finite _ (2 ^ 53)); [|done].
       by apply nearest_quotient_bound. }
  simpl. rewrite Hround. fold k.
  destruct (float_of_int_exact k Hk) as (kf & -> & Hkf). simpl.
  assert (interval * kf == inject_Z (g * k))%Q as Hp
    by (by rewrite Hint, Hkf, inject_Z_mult).
  unfold float_mul. rewrite (of_real_comp _ _ Hp).
  pose proof (nearest_int (g * k) Hgk) as Hexact.
  rewrite of_real_finite.
  2: { apply (small_is_finite _ (2 ^ 53)); [|done].
       rewrite Hexact. change (Qabs (inject_Z (g * k))) with (inject_Z (Z.abs (g * k))).
       apply Qle_of_Zle. lia. }
  simpl. f_equal. by apply int_of_float_integer.
Qed.

(** ** The jitter of [next] *)

(** An integral ratio of sigma to groups is a group size without error. *)
Lemma group_size_integer (sigma groups g : Z) :
  groups ≠ 0 → sigma = g * groups → Z.abs g < 2 ^ 53 →
  ∃ group_size, int_truediv sigma groups = Ok group_size
                ∧ (group_size == inject_Z g)%Q.
Proof.
  intros Hgroups -> Hg. pose proof (inject_Z_nonzero groups Hgroups) as HG.
  unfold int_truediv. destruct (Z.eqb_spec groups 0) as [?|_]; [done|].
  assert (inject_Z (g * groups) / inject_Z groups == inject_Z g)%Q as Hq
    by (rewrite inject_Z_mult; field; done).
  rewrite (of_real_comp _ _ Hq).
  destruct (float_of_int_exact g Hg) as (v & Hv & Hvg).
  unfold float_of_int in Hv.
  destruct (Double.of_real (inject_Z g)) as [x|]; [|discriminate].
  injection Hv as ->. by exists v.
Qed.




(** * Diagnostic state *)

Lemma append_assoc (a b c : string) : (a +:+ b) +:+ c = a +:+ (b +:+ c).
Proof.
  induction a as [|x a IH]; [done|].
  change (String x ((a +:+ b) +:+ c) = String x (a +:+ (b +:+ c))).
  by rewrite IH.
Qed.

Lemma run_next_all_raised (self : Backoff) (calls : list next_call) :
  Forall raised (run_next self calls).1 → (run_next self calls).2 = self.
Proof.
  revert self. induction calls as [|c calls IH]; intros self; simpl; [done|].
  destruct (next self _ _ _ _) as [r self1] eqn:Hnext.
  destruct (run_next self1 calls) as [rs self2] eqn:Hrun. simpl.
  intros Hall. apply Forall_cons in Hall as [[e ->] Hall].
  pose proof (next_raise_keeps_instance self (call_gauss c) (call_store c)
                (call_message c) (call_exchange_name c) e) as Hkeep.
  rewrite Hnext in Hkeep. simpl in Hkeep. rewrite Hkeep in Hrun by done.
  specialize (IH self). rewrite Hrun in IH. by apply IH.
Qed.

(** C10: a call of [next] that raises [Expired] leaves [_total_attempts]
    and [_next_expiration] as they were; an instance on which no call of
    [next] has returned renders as uninitialised; and once a call has
    returned delay D for attempt count N, the instance renders as
    retry #N+1 in Dms. *)
Theorem next_diagnostic_rendering (c : BackoffClass) :
  (∀ self gauss h message name text cause,
     (next self gauss h message name).1 = Raise (Expired text cause) →
     (next self gauss h message name).2 = self)
  ∧ (∀ calls,
       Forall raised (run_next (__init__ c) calls).1 →
       __str__ (run_next (__init__ c) calls).2 = Ok "Backoff(uninitialised)")
  ∧ (∀ calls gauss h message name records D,
       Forall raised (run_next (__init__ c) calls).1 →
       x_death h message = Ok records →
       (next (run_next (__init__ c) calls).2 gauss h message name).1 = Ok D →
       __str__ (next (run_next (__init__ c) calls).2 gauss h message name).2
       = Ok ("Backoff(retry #" +:+ pretty (count_attempts records name + 1)
             +:+ " in " +:+ pretty D +:+ "ms)")).
Proof.
  split_and!.
  - intros. by eapply next_raise_keeps_instance.
  - intros calls Hall. by rewrite run_next_all_raised.
  - intros calls gauss h message name records D Hall Hx Hok.
    rewrite (next_ok_records _ _ _ _ _ _ _ Hx Hok).
    unfold __str__, Py.format_int. simpl. f_equal.
    rewrite !append_assoc. reflexivity.
Qed.

(** * Properties of the publisher *)

(** C6: [make_queue d] is the queue named backoff--{d}ms, bound to the
    headers exchange named backoff with binding arguments
    {backoff: d, x-match: any} and queue arguments
    {x-expires: d + 50000, x-dead-letter-exchange: ""}; for d = 30000 the
    name is backoff--30000ms and x-expires is 80000. *)
Theorem make_queue_shape (d : Z) :
  queue_name (BackoffPublisher.make_queue d) = "backoff--" +:+ pretty d +:+ "ms"
  ∧ queue_exchange (BackoffPublisher.make_queue d)
    = {| exchange_type := "headers"; exchange_name := "backoff" |}
  ∧ binding_arguments (BackoffPublisher.make_queue d)
    = {[ "backoff" := VInt d; "x-match" := VStr "any" ]}
  ∧ queue_arguments (BackoffPublisher.make_queue d)
    = {[ "x-expires" := VInt (d + 50000); "x-dead-letter-exchange" := VStr "" ]}
  ∧ queue_name (BackoffPublisher.make_queue 30000) = "backoff--30000ms"
  ∧ queue_arguments (BackoffPublisher.make_queue 30000)
    = {[ "x-expires" := VInt 80000; "x-dead-letter-exchange" := VStr "" ]}.
Proof.
  unfold BackoffPublisher.make_queue, get_backoff_queue_name, Py.format_int,
    EXPIRY_GRACE_PERIOD, BackoffPublisher.exchange. simpl.
  rewrite !insert_empty. split_and!; reflexivity.
Qed.

(** C5: when [next] raises [Expired], [republish] raises that very
    exception and the world is as before the call: nothing was declared,
    nothing was published, no object was written. *)
Theorem republish_expired_touches_nothing (gauss : Z → Z → Q) (max_attempts : nat)
    (backoff_exc : Backoff) (message : Message) (target_queue : string) (w : World)
    (text : string) (cause : Backoff) :
  (next backoff_exc gauss (objects w) message "backoff").1 = Raise (Expired text cause) →
  BackoffPublisher.republish gauss max_attempts backoff_exc message target_queue w
  = (Raise (Expired text cause), backoff_exc, w).
Proof.
  intros Hnext. unfold BackoffPublisher.republish. simpl.
  pose proof (next_raise_keeps_instance _ _ _ _ _ _ Hnext) as Hkeep.
  destruct (next backoff_exc gauss (objects w) message "backoff") as [r b].
  simpl in *. by subst.
Qed.

Section PublishFacts.

Variables (message : Message) (hdr : loc) (target_queue : string)
          (expiration_seconds : Q) (queue : Queue) (props : dict).

Let call : PublishCall :=
  BackoffPublisher.publish_call message hdr target_queue expiration_seconds queue props.
Let attempt : World → result unit * World :=
  BackoffPublisher.publish message hdr target_queue expiration_seconds queue props.

Hypothesis no_clash : keyword_clash props = false.






(** Every outcome of the decorated [publish]: the objects are left
    alone and the trace grows by publishes of the one call only. *)
Lemma retry_publish_trace (n : nat) (w : World) :
  ∃ k, (k ≤ S n)%nat
       ∧ objects (retry n attempt w).2 = objects w
       ∧ trace (retry n attempt w).2
         = trace w ++ replicate k (Published call (deref (objects w) hdr))
       ∧ ((retry n attempt w).1 = Ok tt → (1 ≤ k)%nat).
Proof.
  assert (∀ w, ∃ k, (k ≤ 1)%nat
            ∧ objects (attempt w).2 = objects w
            ∧ trace (attempt w).2
              = trace w ++ replicate k (Published call (deref (objects w) hdr))
            ∧ ((attempt w).1 = Ok tt → (1 ≤ k)%nat)) as Hone.
  { clear. intros w. unfold attempt, BackoffPublisher.publish.
    destruct (keyword_clash props).
    - exists 0%nat. simpl. rewrite app_nil_r. split_and!; done || lia.
    - exists 1%nat. unfold pop_reply. simpl.
      destruct (replies w) as [|[|r|e] rest]; simpl.
      + destruct (returned_messages w); split_and!; done || lia.
      + destruct (returned_messages w); split_and!; done || lia.
      + destruct (returned_messages w ++ [r]); split_and!; done || lia.
      + destruct e; try (split_and!; done || lia).
        destruct (Py.contains _ _); split_and!; done || lia. }
  revert w. induction n as [|n IH]; intros w.
  - destruct (Hone w) as (k & Hk & Ho & Ht & Hs). exists k. simpl.
    destruct (attempt w) as [[[]|e] w']; simpl in *; [done|].
    destruct e; simpl; split_and!; done || lia.
  - destruct (Hone w) as (k & Hk & Ho & Ht & Hs).
    change (retry (S n) attempt w) with
      (match attempt w with
       | (Raise (UndeliverableMessage r), w') => retry n attempt w'
       | outcome => outcome
       end).
    destruct (attempt w) as [[[]|e] w']; simpl in *.
    { exists k. split_and!; done || lia. }
    destruct e; try (exists k; split_and!; done || lia).
    destruct (IH w') as (k' & Hk' & Ho' & Ht' & Hs').
    exists (k + k')%nat. rewrite Ho', Ht', Ho, Ht.
    split_and!; [lia|done| |intros Hok; specialize (Hs' Hok); lia].
    by rewrite replicate_add, app_assoc.
Qed.

End PublishFacts.



Lemma deref_insert (h : store) (r : loc) (d : dict) : deref (<[r := d]> h) r = d.
Proof. unfold deref. apply lookup_total_insert_eq. Qed.

(** Past [next], the headers lookup and the declaration, [republish] is
    the decorated [publish] run in the prepared world. *)
Lemma republish_publishing (gauss : Z → Z → Q) (n : nat) (b b1 : Backoff)
    (message : Message) (target_queue : string) (w : World) (d : Z) (hdr : loc) :
  next b gauss (objects w) message "backoff" = (Ok d, b1) →
  properties message !! "application_headers" = Some (VRef hdr) →
  declare_failure w = None →
  let run :=
    retry n
      (BackoffPublisher.publish message hdr target_queue (inject_Z d)
         (BackoffPublisher.make_queue d)
         (delete "application_headers" (properties message)))
      (prepared d hdr w) in
  BackoffPublisher.republish gauss n b message target_queue w = (run.1, b1, run.2).
Proof.
  intros Hnext Hhdr Hdecl. unfold BackoffPublisher.republish. simpl.
  rewrite Hnext, Hhdr. unfold BackoffPublisher.maybe_declare. simpl.
  rewrite Hdecl. fold (prepared d hdr w).
  by destruct (retry _ _ _).
Qed.


(** C7: [republish] passes the delay, a number of milliseconds, as the
    [expiration] of [producer.publish], which kombu reads as seconds. In
    this run the delay is 30000: the queue is backoff--30000ms and the
    header backoff is 30000, while the expiration the published message
    gets is 30000000 milliseconds. *)
Theorem republish_expiration_in_seconds :
  ∃ call sent,
    (next Sample.plain (Sample.draws 0) (objects (Sample.second_round []))
       Sample.a_message "backoff").1 = Ok 30000
    ∧ trace (BackoffPublisher.republish (Sample.draws 0) 3 Sample.plain
               Sample.a_message "orders" (Sample.second_round [])).2
      = [Declared (BackoffPublisher.make_queue 30000); Published call sent]
    ∧ queue_name (BackoffPublisher.make_queue 30000) = "backoff--30000ms"
    ∧ sent !! "backoff" = Some (VInt 30000)
    ∧ pc_expiration call = inject_Z 30000
    ∧ kombu_expiration (pc_expiration call) = Ok "30000000".
Proof.
  eexists _, _. split_and!.
  - reflexivity.
  - vm_compute. reflexivity.
  - reflexivity.
  - reflexivity.
  - reflexivity.
  - vm_compute. reflexivity.
Qed.


(** Once [next] has returned and the headers object is found,
    [republish] leaves in the store the headers object with the delay
    written into it, whatever happens afterwards. *)
Lemma republish_writes_headers_object (gauss : Z → Z → Q) (n : nat) (b b1 : Backoff)
    (message : Message) (target_queue : string) (w : World) (d : Z) (hdr : loc) :
  next b gauss (objects w) message "backoff" = (Ok d, b1) →
  properties message !! "application_headers" = Some (VRef hdr) →
  objects (BackoffPublisher.republish gauss n b message target_queue w).2
  = <[hdr := <["backoff" := VInt d]> (deref (objects w) hdr)]> (objects w).
Proof.
  intros Hnext Hhdr.
  destruct (declare_failure w) as [e|] eqn:Hdecl.
  - unfold BackoffPublisher.republish, BackoffPublisher.maybe_declare. simpl.
    rewrite Hnext, Hhdr. simpl. by rewrite Hdecl.
  - rewrite (republish_publishing _ _ _ _ _ _ _ _ _ Hnext Hhdr Hdecl). simpl.
    destruct (retry_publish_trace message hdr target_queue (inject_Z d)
                (BackoffPublisher.make_queue d)
                (delete "application_headers" (properties message))
                n (prepared d hdr w)) as (k & _ & -> & _).
    done.
Qed.

(** * The scenarios of the specification *)

(** The history with two trips through backoff and one unrelated record
    counts 2, and that is what a successful call records. *)
Lemma next_counts_matching_records_witness :
  count_attempts (Sample.history 2) "backoff" = 2
  ∧ _total_attempts
      (next (__init__ (Sample.no_jitter [10; 20] 0)) (Sample.draws 0)
         (Sample.a_store (Sample.history 2)) Sample.a_message "backoff").2
    = Some 2.
Proof.
  destruct (next_counts_matching_records
              (__init__ (Sample.no_jitter [10; 20] 0)) (Sample.draws 0)
              (Sample.a_store (Sample.history 2)) Sample.a_message "backoff"
              (Sample.history 2) eq_refl) as (Hsum & _ & _ & _ & Hrec).
  split; [rewrite Hsum; reflexivity|].
  rewrite (Hrec 20 eq_refl). reflexivity.
Defined.

(** Schedule [10; 20] without limit or jitter: after two attempts the
    delay is the last entry, 20. *)
Lemma schedule_item_clamps_to_last_witness :
  get_next_schedule_item (Sample.no_jitter [10; 20] 0) 2 = Ok 20
  ∧ (next (__init__ (Sample.no_jitter [10; 20] 0)) (Sample.draws 0)
       (Sample.a_store (Sample.history 2)) Sample.a_message "backoff").1 = Ok 20.
Proof.
  destruct (schedule_item_clamps_to_last (Sample.no_jitter [10; 20] 0) 2)
    as [_ Hpast]; [done|lia|].
  destruct Hpast as (item & Hlast & Hitem & Hnext); [simpl; lia|].
  injection Hlast as <-. split; [exact Hitem|].
  rewrite (Hnext (__init__ (Sample.no_jitter [10; 20] 0)) (Sample.draws 0)
             (Sample.a_store (Sample.history 2)) Sample.a_message "backoff"
             (Sample.history 2) eq_refl eq_refl eq_refl eq_refl).
  reflexivity.
Defined.






(** One expired instance, then a call that returns 20 for one attempt:
    the instance renders as retry #2 in 20ms. *)
Lemma next_diagnostic_rendering_witness :
  __str__ (run_next (__init__ (Sample.no_jitter [10; 20] 2))
             [Sample.a_call (Sample.history 2)]).2
  = Ok "Backoff(uninitialised)"
  ∧ __str__ (next (run_next (__init__ (Sample.no_jitter [10; 20] 2))
                     [Sample.a_call (Sample.history 2)]).2
               (Sample.draws 0) (Sample.a_store (Sample.history 1))
               Sample.a_message "backoff").2
    = Ok "Backoff(retry #2 in 20ms)".
Proof.
  destruct (next_diagnostic_rendering (Sample.no_jitter [10; 20] 2))
    as (_ & Hfresh & Hafter).
  assert (Forall raised
            (run_next (__init__ (Sample.no_jitter [10; 20] 2))
               [Sample.a_call (Sample.history 2)]).1) as Hraised.
  { repeat constructor. eexists. reflexivity. }
  split.
  - apply Hfresh. exact Hraised.
  - rewrite (Hafter [Sample.a_call (Sample.history 2)] (Sample.draws 0)
               (Sample.a_store (Sample.history 1)) Sample.a_message "backoff"
               (Sample.history 1) 20 Hraised eq_refl eq_refl).
    reflexivity.
Defined.

(** Limit 2 and two attempts in the history: [republish] raises the
    [Expired] of [next] and the trace stays empty. *)
Lemma republish_expired_touches_nothing_witness :
  BackoffPublisher.republish (Sample.draws 0) 3 Sample.limited Sample.a_message
    "orders" (Sample.second_round [])
  = (Raise (Expired "Backoff aborted after '2' retries (~30 seconds)" Sample.limited),
     Sample.limited, Sample.second_round [])
  ∧ trace (Sample.second_round []) = [].
Proof.
  split; [|reflexivity].
  apply (republish_expired_touches_nothing (Sample.draws 0) 3 Sample.limited
           Sample.a_message "orders" (Sample.second_round [])).
  reflexivity.
Defined.



(** C8: [republish] takes a copy of the message's properties, yet the
    headers it writes the delay into are the very object the original
    properties refer to. In this run the outgoing headers keep every
    other key of the original, and the original message's headers, which
    held no backoff key before the call, hold backoff = 30000 after it. *)
Theorem republish_writes_into_original_headers :
  (BackoffPublisher.republish (Sample.draws 0) 3 Sample.plain Sample.a_message
     "orders" (Sample.second_round [])).1.1 = Ok tt
  ∧ properties Sample.a_message !! "application_headers"
    = Some (VRef (headers Sample.a_message))
  ∧ (∃ call sent,
       publishes (trace (BackoffPublisher.republish (Sample.draws 0) 3 Sample.plain
                           Sample.a_message "orders" (Sample.second_round [])).2)
       = [(call, sent)]
       ∧ sent = <["backoff" := VInt 30000]>
                  (deref (objects (Sample.second_round [])) (headers Sample.a_message))
       ∧ pc_properties call
         = delete "application_headers" (properties Sample.a_message))
  ∧ deref (objects (Sample.second_round [])) (headers Sample.a_message) !! "backoff"
    = None
  ∧ deref (objects (BackoffPublisher.republish (Sample.draws 0) 3 Sample.plain
                      Sample.a_message "orders" (Sample.second_round [])).2)
      (headers Sample.a_message) !! "backoff"
    = Some (VInt 30000).
Proof.
  split_and!.
  - vm_compute. reflexivity.
  - reflexivity.
  - eexists _, _. split_and!; [vm_compute; reflexivity|reflexivity|reflexivity].
  - reflexivity.
  - rewrite (republish_writes_headers_object (Sample.draws 0) 3 Sample.plain
               {| cls := Sample.tuned 0 0 5;
                  _total_attempts := Some 2; _next_expiration := Some 30000 |}
               Sample.a_message "orders" (Sample.second_round []) 30000 1%positive
               eq_refl eq_refl).
    reflexivity.
Qed.

(** * Further properties of the code *)

Lemma string_length_app (a b : string) :
  String.length (a +:+ b) = (String.length a + String.length b)%nat.
Proof.
  induction a as [|x a IH]; [done|].
  change (S (String.length (a +:+ b)) = S (String.length a + String.length b)).
  by rewrite IH.
Qed.

Lemma append_inj_r (a b c : string) : a +:+ c = b +:+ c → a = b.
Proof.
  revert b. induction a as [|x a IH]; intros [|y b] H.
  - done.
  - apply (f_equal String.length) in H.
    change (String.length c = S (String.length (b +:+ c))) in H.
    rewrite string_length_app in H. lia.
  - apply (f_equal String.length) in H.
    change (S (String.length (a +:+ c)) = String.length c) in H.
    rewrite string_length_app in H. lia.
  - change (String x (a +:+ c) = String y (b +:+ c)) in H.
    injection H as -> H. f_equal. by apply IH.
Qed.

(** X1: for an interval that is an integer g other than 0, with g and the
    value below 2^52 in absolute value, [round_to_nearest] returns a
    multiple of g that is at most |g| / 2 away from the value. *)
Theorem round_to_nearest_is_nearest (value g : Z) (interval : Q) :
  (interval == inject_Z g)%Q → g ≠ 0 → Z.abs g < 2 ^ 52 → Z.abs value < 2 ^ 52 →
  ∃ k, round_to_nearest value interval = Ok (g * k)
       ∧ 2 * Z.abs (g * k - value) ≤ Z.abs g.
Proof.
  intros Hint Hg Hgb Hvb. exists (Py.round (inject_Z value / inject_Z g)).
  split; [by apply round_to_nearest_integral|by apply round_quotient_near].
Qed.

Lemma round_to_nearest_is_nearest_witness :
  ∃ k, round_to_nearest 10033 20 = Ok (20 * k)
       ∧ 2 * Z.abs (20 * k - 10033) ≤ Z.abs 20.
Proof.
  apply (round_to_nearest_is_nearest 10033 20 20);
    [reflexivity|lia|vm_compute; reflexivity|vm_compute; reflexivity].
Defined.

(** X2: a value below 2^52 in absolute value that already is a multiple
    of an integral interval g, 0 < |g| < 2^52, is returned as it is. *)
Theorem round_to_nearest_fixes_multiples (g k : Z) (interval : Q) :
  (interval == inject_Z g)%Q → g ≠ 0 → Z.abs g < 2 ^ 52 → Z.abs (g * k) < 2 ^ 52 →
  round_to_nearest (g * k) interval = Ok (g * k).
Proof.
  intros Hint Hg Hgb Hvb.
  rewrite (round_to_nearest_integral (g * k) g interval Hint Hg Hgb Hvb).
  assert (inject_Z (g * k) / inject_Z g == inject_Z k)%Q as Hq.
  { rewrite inject_Z_mult. field. by apply inject_Z_nonzero. }
  by rewrite (round_comp _ _ Hq), round_integer.
Qed.

Lemma round_to_nearest_fixes_multiples_witness :
  round_to_nearest (20 * 7) 20 = Ok (20 * 7).
Proof.
  apply (round_to_nearest_fixes_multiples 20 7 20);
    [reflexivity|lia|vm_compute; reflexivity|vm_compute; reflexivity].
Defined.

Lemma sum_Z_app (l1 l2 : list Z) : sum_Z (l1 ++ l2) = sum_Z l1 + sum_Z l2.
Proof. unfold sum_Z. induction l1 as [|x l1 IH]; simpl; lia. Qed.

Lemma sum_Z_replicate (n : nat) (x : Z) : sum_Z (replicate n x) = Z.of_nat n * x.
Proof. unfold sum_Z. induction n as [|n IH]; simpl; lia. Qed.

Lemma clamped_prefix (sched : list Z) (n : nat) :
  (n ≤ length sched)%nat → clamped sched <$> seq 0 n = take n sched.
Proof.
  intros Hn. apply list_eq. intros i.
  rewrite list_lookup_fmap.
  destruct (decide (i < n)%nat) as [Hi|Hi].
  - rewrite lookup_seq_lt by done. rewrite lookup_take_lt by done. simpl.
    unfold clamped. replace (Nat.min i (length sched - 1)) with i by lia.
    destruct (lookup_lt_is_Some_2 sched i) as [x ->]; [lia|done].
  - rewrite lookup_seq_ge by lia. rewrite lookup_take_ge by lia. done.
Qed.

Lemma clamped_suffix (sched : list Z) (lst : Z) (m : nat) :
  last sched = Some lst →
  clamped sched <$> seq (length sched) m = replicate m lst.
Proof.
  intros Hlast. rewrite last_lookup in Hlast.
  assert (0 < length sched)%nat as Hpos.
  { destruct sched; [done|simpl; lia]. }
  apply list_eq. intros i. rewrite list_lookup_fmap.
  destruct (decide (i < m)%nat) as [Hi|Hi].
  - rewrite lookup_seq_lt by done. rewrite lookup_replicate_2 by done. simpl.
    unfold clamped.
    replace (Nat.min (length sched + i) (length sched - 1)) with (Nat.pred (length sched)) by lia.
    by rewrite Hlast.
  - rewrite lookup_seq_ge by lia. symmetry. apply lookup_replicate_None. lia.
Qed.

(** X3: [max_delay] is 0 for a limit that is not positive, the sum of the
    first limit entries for a limit up to the schedule's length, and past
    that the sum of the schedule plus the last entry once for every
    further attempt. *)
Theorem max_delay_closed_form (self : Backoff) :
  let sched := schedule (cls self) in
  let lim := limit (cls self) in
  (lim ≤ 0 → max_delay self = Ok 0)
  ∧ (0 ≤ lim ≤ Z.of_nat (length sched) →
     max_delay self = Ok (sum_Z (take (Z.to_nat lim) sched)))
  ∧ (∀ lst, last sched = Some lst → Z.of_nat (length sched) ≤ lim →
     max_delay self = Ok (sum_Z sched + (lim - Z.of_nat (length sched)) * lst)).
Proof.
  intros sched lim. split_and!.
  - intros Hlim. unfold max_delay, Py.range. fold lim.
    assert (Z.to_nat lim = 0%nat) as -> by (clearbody lim; lia). done.
  - intros Hlim. destruct (decide (sched = [])) as [Hnil|Hne].
    + assert (lim = 0) as Hzero
        by (rewrite Hnil in Hlim; simpl in Hlim; clearbody lim; lia).
      unfold max_delay, Py.range. fold lim. rewrite Hzero, Hnil. done.
    + rewrite max_delay_total_wait by done. unfold total_wait. fold sched lim.
      rewrite clamped_prefix by lia. done.
  - intros lst Hlast Hlim.
    assert (sched ≠ []) as Hne by (intros Hnil; by rewrite Hnil in Hlast).
    rewrite max_delay_total_wait by done. unfold total_wait. fold sched lim.
    replace (Z.to_nat lim) with (length sched + (Z.to_nat lim - length sched))%nat
      by (clearbody lim sched; lia).
    rewrite seq_app, fmap_app. simpl.
    rewrite clamped_prefix by lia. rewrite firstn_all.
    rewrite (clamped_suffix sched lst) by done.
    fold (sum_Z (sched ++ replicate (Z.to_nat lim - length sched) lst)).
    rewrite sum_Z_app, sum_Z_replicate.
    assert (Z.of_nat (Z.to_nat lim - length sched) = lim - Z.of_nat (length sched))
      as -> by (clearbody lim sched; lia).
    done.
Qed.

Lemma max_delay_closed_form_witness :
  max_delay (__init__ Backoff_class)
  = Ok (sum_Z (schedule Backoff_class) + (200 - 12) * 800000)
  ∧ max_delay (__init__ (Sample.tuned 2 100 5)) = Ok (10000 + (20000 + 0)).
Proof.
  destruct (max_delay_closed_form (__init__ Backoff_class)) as (_ & _ & Hpast).
  destruct (max_delay_closed_form (__init__ (Sample.tuned 2 100 5))) as (_ & Hin & _).
  split.
  - apply (Hpast 800000); [reflexivity|simpl; lia].
  - apply Hin. simpl. lia.
Defined.

(** X4: [get_next_schedule_item] on an empty schedule raises [IndexError]
    for every index; a negative index counts from the end of the
    schedule, and one below minus the length raises [IndexError]. *)
Theorem schedule_item_edges (c : BackoffClass) (index : Z) :
  (schedule c = [] → get_next_schedule_item c index = Raise IndexError)
  ∧ (index < 0 → - Z.of_nat (length (schedule c)) ≤ index →
     ∃ item, schedule c !! Z.to_nat (Z.of_nat (length (schedule c)) + index) = Some item
             ∧ get_next_schedule_item c index = Ok item)
  ∧ (index < - Z.of_nat (length (schedule c)) →
     get_next_schedule_item c index = Raise IndexError).
Proof.
  unfold get_next_schedule_item. split_and!.
  - intros ->.
    assert (∀ i, @Py.index Z [] i = None) as Hnil.
    { intros i. unfold Py.index.
      destruct (0 <=? i); [apply lookup_nil|].
      destruct (0 <=? _); [apply lookup_nil|done]. }
    rewrite !Hnil. by destruct (_ <=? _).
  - intros Hneg Hlow. unfold Py.index.
    destruct (Z.leb_spec (Z.of_nat (length (schedule c))) index); [lia|].
    destruct (Z.leb_spec 0 index); [lia|].
    destruct (Z.leb_spec 0 (Z.of_nat (length (schedule c)) + index)); [|lia].
    destruct (lookup_lt_is_Some_2 (schedule c)
                (Z.to_nat (Z.of_nat (length (schedule c)) + index))) as [x Hx]; [lia|].
    exists x. by rewrite Hx.
  - intros Hlow. unfold Py.index.
    destruct (Z.leb_spec (Z.of_nat (length (schedule c))) index); [lia|].
    destruct (Z.leb_spec 0 index); [lia|].
    destruct (Z.leb_spec 0 (Z.of_nat (length (schedule c)) + index)); [lia|done].
Qed.

Lemma schedule_item_edges_witness :
  get_next_schedule_item (Sample.no_jitter [] 0) 5 = Raise IndexError
  ∧ (∃ item, [10; 20] !! 1%nat = Some item
             ∧ get_next_schedule_item (Sample.no_jitter [10; 20] 0) (-1) = Ok item)
  ∧ get_next_schedule_item (Sample.no_jitter [10; 20] 0) (-3) = Raise IndexError.
Proof.
  destruct (schedule_item_edges (Sample.no_jitter [] 0) 5) as (Hempty & _ & _).
  destruct (schedule_item_edges (Sample.no_jitter [10; 20] 0) (-1)) as (_ & Hback & _).
  destruct (schedule_item_edges (Sample.no_jitter [10; 20] 0) (-3)) as (_ & _ & Hout).
  split_and!.
  - apply Hempty. reflexivity.
  - apply Hback; simpl; lia.
  - apply Hout. simpl. lia.
Defined.

Lemma sum_counts_app (l1 l2 : list death) :
  sum_counts (l1 ++ l2) = sum_counts l1 + sum_counts l2.
Proof. unfold sum_counts. induction l1 as [|d l1 IH]; simpl; lia. Qed.

Lemma sum_counts_perm (l1 l2 : list death) :
  l1 ≡ₚ l2 → sum_counts l1 = sum_counts l2.
Proof. unfold sum_counts. induction 1; simpl; lia. Qed.

Lemma sum_counts_nonneg (l : list death) :
  Forall (fun d => 0 ≤ count d) l → 0 ≤ sum_counts l.
Proof. unfold sum_counts. induction 1; simpl; lia. Qed.

Lemma count_attempts_nonneg (records : list death) (name : string) :
  Forall (fun d => 0 ≤ count d) records → 0 ≤ count_attempts records name.
Proof.
  intros Hall. rewrite count_attempts_sum. apply sum_counts_nonneg.
  unfold matching. rewrite Forall_forall in *. intros d Hd.
  apply Hall. by apply list_elem_of_filter in Hd as [_ Hd].
Qed.

(** X5: the attempt count of two histories put together is the sum of
    their counts, and the order of the records does not matter. *)
Theorem count_attempts_composes (name : string) (l1 l2 : list death) :
  count_attempts (l1 ++ l2) name = count_attempts l1 name + count_attempts l2 name
  ∧ (l1 ≡ₚ l2 → count_attempts l1 name = count_attempts l2 name).
Proof.
  rewrite !count_attempts_sum. unfold matching. split.
  - by rewrite filter_app, sum_counts_app.
  - intros Hp. apply sum_counts_perm. by rewrite Hp.
Qed.

Lemma count_attempts_composes_witness :
  count_attempts [Death "backoff" 1; Death "orders.dlx" 4] "backoff"
  = count_attempts [Death "orders.dlx" 4; Death "backoff" 1] "backoff".
Proof.
  apply (count_attempts_composes "backoff"
           [Death "backoff" 1; Death "orders.dlx" 4]
           [Death "orders.dlx" 4; Death "backoff" 1]).
  apply perm_swap.
Defined.

Lemma next_expired_iff (self : Backoff) gauss h message name records :
  x_death h message = Ok records →
  is_expired (next self gauss h message name).1 = true →
  limit (cls self) ≠ 0 ∧ limit (cls self) ≤ count_attempts records name.
Proof.
  intros Hx. rewrite <- ceiling_spec. unfold next. rewrite Hx. simpl.
  destruct (Py.truthy _ && _); [done|].
  destruct (get_next_schedule_item _ _) as [x|e] eqn:Hitem; simpl.
  - pose proof (randomise_not_expired (cls self) gauss x) as Hr.
    destruct (randomise (cls self) gauss x) as [d|e]; simpl in *; [done|].
    by rewrite Hr.
  - unfold get_next_schedule_item in Hitem.
    destruct (if _ <=? _ then _ else _); [discriminate|].
    by injection Hitem as <-.
Qed.

Lemma next_at_ceiling (self : Backoff) gauss h message name records :
  schedule (cls self) ≠ [] →
  x_death h message = Ok records →
  limit (cls self) ≠ 0 → limit (cls self) ≤ count_attempts records name →
  is_expired (next self gauss h message name).1 = true.
Proof.
  intros Hne Hx H0 Hle. unfold next. rewrite Hx. simpl.
  replace (Py.truthy _ && _) with true by (symmetry; by apply ceiling_spec).
  by rewrite max_delay_total_wait.
Qed.

(** X6: once [next] has raised [Expired] for a history, it raises
    [Expired] for every history that extends it by records whose counts
    are not negative, whatever the sample source. *)
Theorem expired_stays_expired (self : Backoff) gauss gauss' h h' message message'
    name (records extra : list death) :
  schedule (cls self) ≠ [] →
  x_death h message = Ok records →
  x_death h' message' = Ok (records ++ extra) →
  Forall (fun d => 0 ≤ count d) extra →
  is_expired (next self gauss h message name).1 = true →
  is_expired (next self gauss' h' message' name).1 = true.
Proof.
  intros Hne Hx Hx' Hextra Hexp.
  destruct (next_expired_iff _ _ _ _ _ _ Hx Hexp) as [H0 Hle].
  apply (next_at_ceiling _ _ _ _ _ _ Hne Hx' H0).
  pose proof (count_attempts_nonneg extra name Hextra).
  rewrite count_attempts_sum in *. unfold matching in *.
  rewrite filter_app, sum_counts_app. lia.
Qed.

Lemma expired_stays_expired_witness :
  is_expired
    (next Sample.limited (Sample.draws 7)
       (Sample.a_store (Sample.history 2 ++ [Death "backoff" 1]))
       Sample.a_message "backoff").1 = true.
Proof.
  apply (expired_stays_expired Sample.limited (Sample.draws 0) (Sample.draws 7)
           (Sample.a_store (Sample.history 2))
           (Sample.a_store (Sample.history 2 ++ [Death "backoff" 1]))
           Sample.a_message Sample.a_message "backoff"
           (Sample.history 2) [Death "backoff" 1]);
    [done|reflexivity|reflexivity| |reflexivity].
  repeat constructor. simpl. lia.
Defined.

(** X7: with an empty schedule [next] never returns a delay: every call
    raises, and leaves the instance as it was. *)
Theorem next_empty_schedule_never_returns (self : Backoff) gauss h message name :
  schedule (cls self) = [] →
  ∃ e, (next self gauss h message name).1 = Raise e
       ∧ (next self gauss h message name).2 = self.
Proof.
  intros Hnil. unfold next.
  destruct (x_death h message) as [records|e]; [|by eexists]. simpl.
  destruct (Py.truthy _ && _).
  - destruct (max_delay self); by eexists.
  - unfold get_next_schedule_item. rewrite Hnil.
    assert (∀ i, @Py.index Z [] i = None) as Hidx.
    { intros i. unfold Py.index.
      destruct (0 <=? i); [apply lookup_nil|].
      destruct (0 <=? _); [apply lookup_nil|done]. }
    rewrite !Hidx. destruct (_ <=? _); by eexists.
Qed.

Lemma next_empty_schedule_never_returns_witness :
  ∃ e, (next (__init__ (Sample.no_jitter [] 0)) (Sample.draws 0)
          Sample.fresh_store Sample.a_message "backoff").1 = Raise e
       ∧ (next (__init__ (Sample.no_jitter [] 0)) (Sample.draws 0)
            Sample.fresh_store Sample.a_message "backoff").2
         = __init__ (Sample.no_jitter [] 0).
Proof.
  apply (next_empty_schedule_never_returns (__init__ (Sample.no_jitter [] 0))).
  reflexivity.
Defined.







(** X10: when the sigma is a multiple g of a number of groups other than
    0, and g and the truncated sample are below 2^52 in absolute value,
    the delay [next] returns is at most |g| / 2 away from the absolute
    value of the truncated sample. *)
Theorem next_jitter_within_half_group (self : Backoff) gauss h message name records base g :
  x_death h message = Ok records →
  Py.truthy (limit (cls self))
    && (limit (cls self) <=? count_attempts records name) = false →
  get_next_schedule_item (cls self) (count_attempts records name) = Ok base →
  random_sigma (cls self) ≠ 0 → random_groups_per_sigma (cls self) ≠ 0 →
  random_sigma (cls self) = g * random_groups_per_sigma (cls self) →
  Z.abs g < 2 ^ 52 →
  Z.abs (Py.int_of_float (gauss base (random_sigma (cls self)))) < 2 ^ 52 →
  ∃ d, (next self gauss h message name).1 = Ok d
       ∧ 2 * Z.abs (d - Z.abs (Py.int_of_float (gauss base (random_sigma (cls self)))))
         ≤ Z.abs g.
Proof.
  intros Hx Hceil Hitem Hsigma Hgroups Hdiv Hg Hr.
  assert (g ≠ 0) as Hg0 by (intros ->; lia).
  unfold next. rewrite Hx. simpl. rewrite Hceil, Hitem. simpl.
  unfold randomise.
  replace (Py.truthy (random_sigma (cls self))) with true
    by (symmetry; by apply truthy_spec).
  destruct (group_size_integer _ _ g Hgroups Hdiv) as (gs & -> & Hgs); [lia|].
  simpl. rewrite (round_to_nearest_integral _ g gs Hgs Hg0 Hg Hr). simpl.
  eexists. split; [done|].
  pose proof (round_quotient_near
                (Py.int_of_float (gauss base (random_sigma (cls self)))) g Hg0).
  lia.
Qed.

Lemma next_jitter_within_half_group_witness :
  ∃ d, (next (__init__ Backoff_class) (Sample.draws 10033)
          Sample.fresh_store Sample.a_message "backoff").1 = Ok d
       ∧ 2 * Z.abs (d - Z.abs (Py.int_of_float (Sample.draws 10033 10000 100)))
         ≤ Z.abs 20.
Proof.
  apply (next_jitter_within_half_group (__init__ Backoff_class) (Sample.draws 10033)
           Sample.fresh_store Sample.a_message "backoff" [] 10000 20);
    [reflexivity|reflexivity|reflexivity|done|done|reflexivity
    |vm_compute; reflexivity|vm_compute; reflexivity].
Defined.

(** X11: two delays have the same queue name, and the same delay queue,
    only when they are the same delay. *)
Theorem queue_names_distinct (d1 d2 : Z) :
  (get_backoff_queue_name d1 = get_backoff_queue_name d2 ↔ d1 = d2)
  ∧ (BackoffPublisher.make_queue d1 = BackoffPublisher.make_queue d2 ↔ d1 = d2).
Proof.
  assert (get_backoff_queue_name d1 = get_backoff_queue_name d2 → d1 = d2) as Hname.
  { unfold get_backoff_queue_name, Py.format_int. intros H.
    apply String.app_inj in H. apply append_inj_r in H.
    by apply pretty_Z_inj in H. }
  split; split; [done|by intros ->| |by intros ->].
  intros H. apply Hname. by apply (f_equal queue_name) in H.
Qed.

Lemma next_coherent (self : Backoff) gauss h message name :
  coherent self → coherent (next self gauss h message name).2.
Proof.
  intros Hc. unfold next.
  destruct (x_death h message) as [records|e]; [|done]. simpl.
  destruct (Py.truthy _ && _).
  - by destruct (max_delay self).
  - destruct (get_next_schedule_item _ _ ≫= _); [|done].
    simpl. intros _. by eexists.
Qed.

Lemma run_next_coherent (self : Backoff) (calls : list next_call) :
  coherent self → coherent (run_next self calls).2.
Proof.
  revert self. induction calls as [|c calls IH]; intros self Hc; simpl; [done|].
  pose proof (next_coherent self (call_gauss c) (call_store c) (call_message c)
                (call_exchange_name c) Hc) as Hstep.
  destruct (next self _ _ _ _) as [r self1].
  specialize (IH self1 Hstep).
  by destruct (run_next self1 calls) as [rs self2].
Qed.

(** X12: whatever calls of [next] were made on an instance since
    [__init__], [__str__] renders it and raises nothing. *)
Theorem str_never_raises (c : BackoffClass) (calls : list next_call) :
  ∃ s, __str__ (run_next (__init__ c) calls).2 = Ok s.
Proof.
  assert (coherent (run_next (__init__ c) calls).2) as Hc.
  { apply run_next_coherent. unfold coherent. simpl. by intros [? ?]. }
  unfold __str__. unfold coherent in Hc.
  destruct (_next_expiration _) as [e|]; [|by eexists].
  destruct Hc as [t ->]; [by eexists|]. by eexists.
Qed.

(** X13: after a call of [next] that returned delay D for attempt count
    N, calls that raise do not change the rendering: it stays
    retry #N+1 in Dms. *)
Theorem str_shows_last_success (self : Backoff) gauss h message name records D
    (calls : list next_call) :
  x_death h message = Ok records →
  (next self gauss h message name).1 = Ok D →
  Forall raised (run_next (next self gauss h message name).2 calls).1 →
  __str__ (run_next (next self gauss h message name).2 calls).2
  = Ok ("Backoff(retry #" +:+ pretty (count_attempts records name + 1)
        +:+ " in " +:+ pretty D +:+ "ms)").
Proof.
  intros Hx Hok Hraised.
  rewrite run_next_all_raised by done.
  rewrite (next_ok_records _ _ _ _ _ _ _ Hx Hok).
  unfold __str__, Py.format_int. simpl. f_equal.
  rewrite !append_assoc. reflexivity.
Qed.

Lemma str_shows_last_success_witness :
  __str__
    (run_next
       (next (__init__ (Sample.no_jitter [10; 20] 2)) (Sample.draws 0)
          (Sample.a_store (Sample.history 1)) Sample.a_message "backoff").2
       [Sample.a_call (Sample.history 2)]).2
  = Ok "Backoff(retry #2 in 20ms)".
Proof.
  rewrite (str_shows_last_success (__init__ (Sample.no_jitter [10; 20] 2))
             (Sample.draws 0) (Sample.a_store (Sample.history 1)) Sample.a_message
             "backoff" (Sample.history 1) 20 [Sample.a_call (Sample.history 2)]
             eq_refl eq_refl).
  - reflexivity.
  - repeat constructor. eexists. reflexivity.
Defined.

Lemma next_ok_shape (self : Backoff) gauss h message name d :
  (next self gauss h message name).1 = Ok d →
  0 ≤ d ∧ ∃ N, (next self gauss h message name).2
               = {| cls := cls self; _total_attempts := Some N;
                    _next_expiration := Some d |}.
Proof.
  unfold next. destruct (x_death h message) as [records|e]; [|discriminate]. simpl.
  destruct (Py.truthy _ && _).
  - destruct (max_delay self); discriminate.
  - destruct (get_next_schedule_item _ _ ≫= _); [|discriminate].
    simpl. intros [= <-]. split; [lia|]. by eexists.
Qed.

Lemma republish_cases (gauss : Z → Z → Q) (n : nat) (b : Backoff)
    (message : Message) (target_queue : string) (w : World) :
  let res := BackoffPublisher.republish gauss n b message target_queue w in
  let nx := next b gauss (objects w) message "backoff" in
  match nx.1 with
  | Raise e => res = (Raise e, nx.2, w)
  | Ok d =>
    match properties message !! "application_headers" with
    | None => res = (Raise (KeyError "application_headers"), nx.2, w)
    | Some (VRef hdr) =>
      match declare_failure w with
      | Some e => res = (Raise e, nx.2, written d hdr w)
      | None =>
        let run :=
          retry n
            (BackoffPublisher.publish message hdr target_queue (inject_Z d)
               (BackoffPublisher.make_queue d)
               (delete "application_headers" (properties message)))
            (prepared d hdr w) in
        res = (run.1, nx.2, run.2)
      end
    | Some _ => res = (Raise TypeError, nx.2, w)
    end
  end.
Proof.
  intros res nx. unfold res, nx.
  destruct (next b gauss (objects w) message "backoff") as [[d|e] b1] eqn:Hnext; simpl.
  2: { unfold BackoffPublisher.republish. simpl. by rewrite Hnext. }
  destruct (properties message !! "application_headers") as [[| | | |hdr]|] eqn:Hhdr;
    try (unfold BackoffPublisher.republish; simpl; by rewrite Hnext, Hhdr).
  destruct (declare_failure w) as [e|] eqn:Hdecl.
  - unfold BackoffPublisher.republish, BackoffPublisher.maybe_declare. simpl.
    rewrite Hnext, Hhdr. simpl. by rewrite Hdecl.
  - by rewrite (republish_publishing _ _ _ _ _ _ _ _ _ Hnext Hhdr Hdecl).
Qed.

(** X14: on every path, the instance [republish] leaves is the instance
    [next] left: a failure at the headers or at the broker does not take
    back what [next] recorded. *)
Theorem republish_instance_follows_next (gauss : Z → Z → Q) (n : nat) (b : Backoff)
    (message : Message) (target_queue : string) (w : World) :
  (BackoffPublisher.republish gauss n b message target_queue w).1.2
  = (next b gauss (objects w) message "backoff").2.
Proof.
  pose proof (republish_cases gauss n b message target_queue w) as H. simpl in H.
  destruct (next b gauss (objects w) message "backoff").1; [|by rewrite H].
  destruct (properties message !! "application_headers") as [[| | | |hdr]|];
    try by rewrite H.
  destruct (declare_failure w); by rewrite H.
Qed.

(** X15: when [next] has returned and the message's properties hold no
    [application_headers], [republish] raises [KeyError]; when they hold
    something that is no dict, it raises [TypeError]. In both cases the
    world is as before the call, while the instance has recorded the
    delay. *)
Theorem republish_without_headers (gauss : Z → Z → Q) (n : nat) (b : Backoff)
    (message : Message) (target_queue : string) (w : World) (d : Z) :
  (next b gauss (objects w) message "backoff").1 = Ok d →
  (properties message !! "application_headers" = None →
     BackoffPublisher.republish gauss n b message target_queue w
     = (Raise (KeyError "application_headers"),
        (next b gauss (objects w) message "backoff").2, w))
  ∧ (∀ v, properties message !! "application_headers" = Some v →
          (∀ hdr, v ≠ VRef hdr) →
          BackoffPublisher.republish gauss n b message target_queue w
          = (Raise TypeError, (next b gauss (objects w) message "backoff").2, w))
  ∧ _next_expiration (next b gauss (objects w) message "backoff").2 = Some d.
Proof.
  intros Hnext.
  pose proof (republish_cases gauss n b message target_queue w) as H. simpl in H.
  rewrite Hnext in H. split_and!.
  - intros Hnone. by rewrite Hnone in H.
  - intros v Hv Hnot. rewrite Hv in H. destruct v; try done. by destruct (Hnot r).
  - destruct (next_ok_shape _ _ _ _ _ _ Hnext) as (_ & N & ->). done.
Qed.

Lemma republish_without_headers_witness :
  BackoffPublisher.republish (Sample.draws 0) 3 Sample.plain Case.bare_message
    "orders" (Sample.second_round [])
  = (Raise (KeyError "application_headers"),
     (next Sample.plain (Sample.draws 0) (objects (Sample.second_round []))
        Case.bare_message "backoff").2,
     Sample.second_round []).
Proof.
  apply (republish_without_headers (Sample.draws 0) 3 Sample.plain Case.bare_message
           "orders" (Sample.second_round []) 30000); reflexivity.
Defined.



Lemma declarations_app (t1 t2 : list broker_op) :
  declarations (t1 ++ t2) = declarations t1 ++ declarations t2.
Proof.
  unfold declarations.
  induction t1 as [|[q|c sent] t1 IH]; simpl; [done| |done].
  f_equal. exact IH.
Qed.

Lemma declarations_replicate (k : nat) (c : PublishCall) (sent : dict) :
  declarations (replicate k (Published c sent)) = [].
Proof. unfold declarations. induction k as [|k IH]; simpl; [done|exact IH]. Qed.






(** X20: [republish] writes to one place only, the key backoff of the
    dict the message's [application_headers] refers to: every other key
    of that dict and every other dict of the store reads as before, on
    every path. *)
Theorem republish_store_frame (gauss : Z → Z → Q) (n : nat) (b : Backoff)
    (message : Message) (target_queue : string) (w : World) (r : loc) (key : string) :
  (properties message !! "application_headers" = Some (VRef r) → key ≠ "backoff") →
  deref (objects (BackoffPublisher.republish gauss n b message target_queue w).2) r !! key
  = deref (objects w) r !! key.
Proof.
  intros Hframe.
  pose proof (republish_cases gauss n b message target_queue w) as H. simpl in H.
  destruct (next b gauss (objects w) message "backoff").1 as [d|e] eqn:Hnext;
    [|by rewrite H].
  destruct (properties message !! "application_headers") as [[| | | |hdr]|] eqn:Hhdr;
    try by rewrite H.
  assert (deref (<[hdr := <["backoff" := VInt d]> (deref (objects w) hdr)]> (objects w)) r
          !! key = deref (objects w) r !! key) as Hsame.
  { destruct (decide (hdr = r)) as [->|Hne].
    - rewrite deref_insert. apply lookup_insert_ne. intros Heq. by apply Hframe.
    - unfold deref. by rewrite lookup_total_insert_ne. }
  destruct (declare_failure w); rewrite H; simpl; [done|].
  destruct (retry_publish_trace message hdr target_queue (inject_Z d)
              (BackoffPublisher.make_queue d)
              (delete "application_headers" (properties message))
              n (prepared d hdr w)) as (k & _ & -> & _).
  done.
Qed.

Lemma republish_store_frame_witness :
  deref (objects (BackoffPublisher.republish (Sample.draws 0) 3 Sample.plain
                    Sample.a_message "orders" (Sample.second_round [])).2)
    1%positive !! "x-death"
  = deref (objects (Sample.second_round [])) 1%positive !! "x-death".
Proof.
  apply (republish_store_frame (Sample.draws 0) 3 Sample.plain Sample.a_message
           "orders" (Sample.second_round []) 1%positive "x-death").
  intros _. discriminate.
Defined.

(** X21: when [republish] succeeds, the delay the instance has recorded
    and renders is the delay of the queue that was declared, and it is
    not negative. *)
Theorem republish_success_recorded (gauss : Z → Z → Q) (n : nat) (b b1 : Backoff)
    (message : Message) (target_queue : string) (w w' : World) :
  BackoffPublisher.republish gauss n b message target_queue w = (Ok tt, b1, w') →
  ∃ d N, b1 = {| cls := cls b; _total_attempts := Some N; _next_expiration := Some d |}
         ∧ 0 ≤ d
         ∧ declarations (trace w') = declarations (trace w) ++ [BackoffPublisher.make_queue d]
         ∧ __str__ b1 = Ok ("Backoff(retry #" +:+ pretty (N + 1) +:+ " in "
                            +:+ pretty d +:+ "ms)").
Proof.
  intros Hrun.
  pose proof (republish_cases gauss n b message target_queue w) as H. simpl in H.
  rewrite Hrun in H.
  destruct (next b gauss (objects w) message "backoff").1 as [d|e] eqn:Hnext;
    [|discriminate].
  destruct (properties message !! "application_headers") as [[| | | |hdr]|];
    try discriminate.
  destruct (declare_failure w); [discriminate|].
  destruct (next_ok_shape _ _ _ _ _ _ Hnext) as (Hpos & N & Hstate).
  destruct (retry_publish_trace message hdr target_queue (inject_Z d)
              (BackoffPublisher.make_queue d)
              (delete "application_headers" (properties message))
              n (prepared d hdr w)) as (k & _ & _ & Htrace & _).
  injection H as _ Hb Hw. rewrite <- Hw in Htrace. rewrite Hstate in Hb.
  exists d, N. split_and!; [done|done| |].
  - rewrite Htrace. unfold prepared. simpl.
    rewrite !declarations_app, declarations_replicate. simpl. by rewrite app_nil_r.
  - rewrite Hb. unfold __str__, Py.format_int. simpl. f_equal.
    rewrite !append_assoc. reflexivity.
Qed.

Lemma republish_success_recorded_witness :
  ∃ d N,
    (BackoffPublisher.republish (Sample.draws 0) 3 Sample.plain Sample.a_message
       "orders" (Sample.second_round [])).1.2
    = {| cls := cls Sample.plain; _total_attempts := Some N;
         _next_expiration := Some d |}
    ∧ 0 ≤ d
    ∧ declarations
        (trace (BackoffPublisher.republish (Sample.draws 0) 3 Sample.plain
                  Sample.a_message "orders" (Sample.second_round [])).2)
      = declarations (trace (Sample.second_round []))
        ++ [BackoffPublisher.make_queue d].
Proof.
  destruct (republish_success_recorded (Sample.draws 0) 3 Sample.plain
              (BackoffPublisher.republish (Sample.draws 0) 3 Sample.plain
                 Sample.a_message "orders" (Sample.second_round [])).1.2
              Sample.a_message "orders" (Sample.second_round [])
              (BackoffPublisher.republish (Sample.draws 0) 3 Sample.plain
                 Sample.a_message "orders" (Sample.second_round [])).2)
    as (d & N & Hb & Hpos & Hdecl & _); [vm_compute; reflexivity|].
  exists d, N. split_and!; [exact Hb|exact Hpos|exact Hdecl].
Defined.

Section StaleReturns.

Variables (message : Message) (hdr : loc) (target_queue : string)
          (expiration_seconds : Q) (queue : Queue) (props : dict).

Let call : PublishCall :=
  BackoffPublisher.publish_call message hdr target_queue expiration_seconds queue props.
Let attempt : World → result unit * World :=
  BackoffPublisher.publish message hdr target_queue expiration_seconds queue props.

Hypothesis no_clash : keyword_clash props = false.





End StaleReturns.


